(** * Ensemble inference and volumetric reconstruction (src/inference.py)

    A shallow embedding of [generate_segmentations]: the tensor operations it
    calls (slicing, slice assignment with broadcasting, stack and mean,
    thresholding, masked assignment), the per-model loop with its Python
    local variables, the per-case loop, and an event log recording device
    transfers, forward computations and written volumes.

    Tensor elements are rationals: rounding of the reduced-precision
    arithmetic is not part of the model. *)

From Stdlib Require Import ZArith QArith Qabs List String Bool Lia.
From stdpp Require Import gmap strings.
Import ListNotations.
Open Scope Z_scope.

(* ===================================================================== *)
(** * Python exceptions and fallible computations                        *)
(* ===================================================================== *)

Module Py.

(** Why torch raises its [RuntimeError]: sizes that disagree (in a slice
    assignment or in [torch.stack]), or an empty list given to
    [torch.stack]. *)
Inductive torch_error : Type :=
| SizeMismatch
| EmptyTensorList.

(** The exceptions the embedded code can raise.  [InferenceError] and
    [WriteError] are raised by the collaborators (model forward pass,
    augmentation, image writer). *)
Inductive exn : Type :=
| UnboundLocalError (name : string)
| RuntimeError (why : torch_error)
| IndexError
| ValueError
| TypeError
| AttributeError
| InferenceError
| WriteError.

(** The shape error of the design is torch's error on disagreeing sizes. *)
Abbreviation ShapeMismatch := (RuntimeError SizeMismatch).

Inductive result (A : Type) : Type :=
| Ok (a : A)
| Raise (e : exn).
Arguments Ok {A} a.
Arguments Raise {A} e.

#[global] Instance result_ret : MRet result := fun A a => Ok a.
#[global] Instance result_bind : MBind result := fun A B f r =>
  match r with
  | Ok a => f a
  | Raise e => Raise e
  end.

(** Reading a local variable that no assignment has bound yet. *)
Definition read_var {A : Type} (name : string) (v : option A) : result A :=
  match v with
  | Some a => Ok a
  | None => Raise (UnboundLocalError name)
  end.

Definition is_ok {A : Type} (r : result A) : bool :=
  match r with Ok _ => true | Raise _ => false end.

End Py.
Export Py.

(* ===================================================================== *)
(** * Dense arrays (torch tensors and numpy arrays)                      *)
(* ===================================================================== *)

Module NdArray.

(** An array is its shape and its elements, read by a full index (one
    coordinate per axis).  Elements at indices outside the shape are never
    read by the operations below. *)
Record ndarray (A : Type) : Type := mk_ndarray {
  shape : list Z;
  data : list Z -> A
}.
Arguments mk_ndarray {A} shape data.
Arguments shape {A} n.
Arguments data {A} n idx.

Definition tensor : Type := ndarray Q.

(** [idx] addresses an element of an array of shape [sh]. *)
Fixpoint in_range (sh idx : list Z) : Prop :=
  match sh, idx with
  | [], [] => True
  | n :: sh', i :: idx' => 0 <= i < n /\ in_range sh' idx'
  | _, _ => False
  end.

(** [t.size(k)] *)
Definition tensor_size (t : tensor) (k : nat) : result Z :=
  match shape t !! k with
  | Some n => Ok n
  | None => Raise IndexError
  end.

(** ** Basic indexing *)

(** One subscript: an integer, [start:stop], or [:]. *)
Inductive index : Type :=
| IInt (i : Z)
| ISlice (start stop : Z)
| IAll.

(** Bounds of [start:stop] on an axis of length [n], as Python and torch
    compute them: a negative bound counts from the end, and both bounds are
    clamped to [0, n]. *)
Definition clamp (i n : Z) : Z :=
  if i <? 0 then Z.max 0 (i + n) else Z.min i n.

Definition slice_lo (start n : Z) : Z := clamp start n.
Definition slice_hi (start stop n : Z) : Z := Z.max (clamp start n) (clamp stop n).
Definition slice_len (start stop n : Z) : Z := slice_hi start stop n - slice_lo start n.
#[global] Arguments slice_lo : simpl never.
#[global] Arguments slice_len : simpl never.

(** An integer subscript: negative counts from the end; out of range raises. *)
Definition norm_int (i n : Z) : result Z :=
  let i' := if i <? 0 then i + n else i in
  if (0 <=? i') && (i' <? n) then Ok i' else Raise IndexError.

(** A subscript resolved against its axis. *)
Inductive axis_sel : Type :=
| Pick (i : Z)
| Range (lo len : Z).

Fixpoint resolve (ix : list index) (sh : list Z) : result (list axis_sel) :=
  match ix, sh with
  | [], _ => Ok (map (Range 0) sh)
  | _ :: _, [] => Raise IndexError
  | IInt i :: ix', n :: sh' =>
      i' ← norm_int i n;
      sels ← resolve ix' sh';
      Ok (Pick i' :: sels)
  | ISlice a b :: ix', n :: sh' =>
      sels ← resolve ix' sh';
      Ok (Range (slice_lo a n) (slice_len a b n) :: sels)
  | IAll :: ix', n :: sh' =>
      sels ← resolve ix' sh';
      Ok (Range 0 n :: sels)
  end.

Fixpoint view_shape (sels : list axis_sel) : list Z :=
  match sels with
  | [] => []
  | Pick _ :: s => view_shape s
  | Range _ len :: s => len :: view_shape s
  end.

(** Index into the view, to index into the base array. *)
Fixpoint to_base (sels : list axis_sel) (j : list Z) : list Z :=
  match sels with
  | [] => []
  | Pick i :: s => i :: to_base s j
  | Range lo _ :: s =>
      match j with
      | [] => []
      | j0 :: j' => (lo + j0) :: to_base s j'
      end
  end.

(** Index into the base array, to index into the view when the element is
    selected by the subscripts. *)
Fixpoint of_base (sels : list axis_sel) (idx : list Z) : option (list Z) :=
  match sels, idx with
  | [], [] => Some []
  | Pick i :: s, i0 :: idx' =>
      if i0 =? i then of_base s idx' else None
  | Range lo len :: s, i0 :: idx' =>
      if (lo <=? i0) && (i0 <? lo + len)
      then cons (i0 - lo) <$> of_base s idx'
      else None
  | _, _ => None
  end.

(** [t[ix]] *)
Definition getitem {A : Type} (ix : list index) (t : ndarray A) : result (ndarray A) :=
  sels ← resolve ix (shape t);
  Ok (mk_ndarray (view_shape sels) (fun j => data t (to_base sels j))).

(** ** Slice assignment, with torch's broadcasting of the right-hand side *)

(** Leading axes of length 1 of the right-hand side are dropped. *)
Fixpoint strip_ones (sh : list Z) : list Z :=
  match sh with
  | s :: sh' => if s =? 1 then strip_ones sh' else sh
  | [] => []
  end.

(** Both shapes reversed (trailing axis first): each source axis must equal
    the target axis or be 1, and the source may not have more axes. *)
Fixpoint expandable_rev (ss ts : list Z) : bool :=
  match ss, ts with
  | [], _ => true
  | _ :: _, [] => false
  | s :: ss', t :: ts' => ((s =? t) || (s =? 1)) && expandable_rev ss' ts'
  end.

Definition expandable (ss ts : list Z) : bool :=
  expandable_rev (rev (strip_ones ss)) (rev ts).

Fixpoint expand_index_rev (ss j : list Z) : list Z :=
  match ss with
  | [] => []
  | s :: ss' =>
      match j with
      | [] => 0 :: expand_index_rev ss' []
      | j0 :: j' => (if s =? 1 then 0 else j0) :: expand_index_rev ss' j'
      end
  end.

(** The source element broadcast to position [j] of the target view. *)
Definition expand_index (ss j : list Z) : list Z :=
  let ss' := strip_ones ss in
  repeat 0 (length ss - length ss')%nat ++ rev (expand_index_rev (rev ss') (rev j)).

(** [dst[ix] = src] *)
Definition setitem {A : Type} (ix : list index) (dst src : ndarray A) : result (ndarray A) :=
  sels ← resolve ix (shape dst);
  if expandable (shape src) (view_shape sels)
  then Ok (mk_ndarray (shape dst) (fun idx =>
         match of_base sels idx with
         | Some j => data src (expand_index (shape src) j)
         | None => data dst idx
         end))
  else Raise ShapeMismatch.

(** ** Construction, elementwise operations, reduction *)

(** [torch.zeros(sh)], [np.zeros(sh)] *)
Definition zeros (sh : list Z) : tensor := mk_ndarray sh (fun _ => 0%Q).

Definition map_elems {A B : Type} (f : A -> B) (t : ndarray A) : ndarray B :=
  mk_ndarray (shape t) (fun idx => f (data t idx)).

Definition shape_eqb (s1 s2 : list Z) : bool := bool_decide (s1 = s2).

(** [torch.stack(ts)]: a new leading axis; all shapes must agree and the
    list must not be empty. *)
Definition stack (ts : list tensor) : result tensor :=
  match ts with
  | [] => Raise (RuntimeError EmptyTensorList)
  | t0 :: rest =>
      if forallb (fun t => shape_eqb (shape t) (shape t0)) rest
      then Ok (mk_ndarray (Z.of_nat (length ts) :: shape t0) (fun idx =>
             match idx with
             | [] => 0%Q
             | i :: j => data (nth (Z.to_nat i) ts t0) j
             end))
      else Raise ShapeMismatch
  end.

(** Sum of [f 0 .. f (n-1)], accumulated from zero. *)
Definition qsum (n : nat) (f : nat -> Q) : Q :=
  fold_left Qplus (map f (seq 0 n)) 0%Q.

(** [t.mean(dim=0)] *)
Definition mean_dim0 (t : tensor) : result tensor :=
  match shape t with
  | [] => Raise IndexError
  | n :: sh =>
      Ok (mk_ndarray sh (fun j =>
            (qsum (Z.to_nat n) (fun i => data t (Z.of_nat i :: j)) / inject_Z n)%Q))
  end.

(** [a > c] elementwise *)
Definition Qgtb (x c : Q) : bool := negb (Qle_bool x c).
Definition gt_scalar (t : tensor) (c : Q) : ndarray bool := map_elems (fun x => Qgtb x c) t.

(** [np.logical_not], [np.logical_and] on arrays of one shape *)
Definition logical_not (a : ndarray bool) : ndarray bool := map_elems negb a.
Definition logical_and (a b : ndarray bool) : ndarray bool :=
  mk_ndarray (shape a) (fun idx => data a idx && data b idx).

(** [a[mask] = v] for a boolean mask of the array's shape *)
Definition mask_assign (a : tensor) (mask : ndarray bool) (v : Q) : tensor :=
  mk_ndarray (shape a) (fun idx => if data mask idx then v else data a idx).

(** The outcome of a fallible tensor computation, observed at one index. *)
Definition value_at (r : result tensor) (idx : list Z) : option Q :=
  match r with
  | Ok t => Some (data t idx)
  | Raise _ => None
  end.

Definition shape_of (r : result tensor) : option (list Z) :=
  match r with
  | Ok t => Some (shape t)
  | Raise _ => None
  end.

End NdArray.
Export NdArray.

(* ===================================================================== *)
(** * Observable effects                                                 *)
(* ===================================================================== *)

(** What a run does to the outside world, in order: transfers of an input
    tensor or of a model's weights to the accelerator, a model's weights
    moved off it, a forward computation (plain or augmented) of a model,
    and a label volume written.  Models are named by their position in the
    ensemble. *)
Inductive event : Type :=
| EvInputToGpu (normalisation : string)
| EvModelToGpu (i : nat)
| EvForward (i : nat)
| EvModelToCpu (i : nat)
| EvWrite (dest ref_img_path : string) (labelmap : tensor).

(** Computations that may raise and that append to the event log.  What was
    logged before an exception stays logged. *)
Definition M (A : Type) : Type := list event -> result A * list event.

Definition ret_M {A : Type} (a : A) : M A := fun log => (Ok a, log).

Definition bind_M {A B : Type} (c : M A) (k : A -> M B) : M B := fun log =>
  match c log with
  | (Ok a, log') => k a log'
  | (Raise e, log') => (Raise e, log')
  end.

Definition emit (e : event) : M unit := fun log => (Ok tt, log ++ [e]).

Definition lift {A : Type} (r : result A) : M A := fun log => (r, log).

#[global] Instance M_ret : MRet M := @ret_M.
#[global] Instance M_bind : MBind M := fun A B k c => bind_M c k.

(** The models whose weights are on the accelerator after the events of a
    log, starting from the set [g]. *)
Definition gpu_step (g : gset nat) (e : event) : gset nat :=
  match e with
  | EvModelToGpu i => {[ i ]} ∪ g
  | EvModelToCpu i => g ∖ {[ i ]}
  | _ => g
  end.

Definition resident (g : gset nat) (log : list event) : gset nat :=
  fold_left gpu_step log g.

Definition is_input_transfer (e : event) : bool :=
  match e with EvInputToGpu _ => true | _ => false end.

(** The destinations written, and the labels written at one voxel. *)
Definition written (log : list event) : list string :=
  flat_map (fun e => match e with EvWrite dest _ _ => [dest] | _ => [] end) log.

Definition labels_written_at (log : list event) (idx : list Z) : list Q :=
  flat_map (fun e => match e with EvWrite _ _ l => [data l idx] | _ => [] end) log.

(* ===================================================================== *)
(** * The inference loop                                                 *)
(* ===================================================================== *)

(** What a model returns: its output, or with deep supervision the output
    and the auxiliary heads. *)
Inductive fwd_out : Type :=
| Plain (out : tensor)
| WithAux (out : tensor) (deeps : list tensor).

Record model : Type := mk_model {
  deep_supervision : bool;
  forward : tensor -> result fwd_out
}.

(** Three [start, stop) pairs, one per spatial axis. *)
Definition crop_indexes : Type := (Z * Z) * (Z * Z) * (Z * Z).

(** The amounts added at the end of each spatial axis. *)
Definition pad_spec : Type := Z * Z * Z.

(** One item of a data loader. *)
Record batch : Type := mk_batch {
  patient_id : string;
  seg_path : string;
  crop_idx : crop_indexes;
  image : tensor
}.

Record args : Type := mk_args {
  tta : bool;
  pred_folder : string
}.

(** The functions [generate_segmentations] imports from the rest of the
    repository and from its libraries. *)
Class Externals : Type := {
  pad_batch1_to_compatible_size : tensor -> tensor * pad_spec;
  apply_simple_tta : model -> tensor -> bool -> result tensor;
  sigmoid : Q -> Q;
  (* GetImageFromArray, ReadImage, CopyInformation, WriteImage *)
  sitk_write : tensor -> string -> string -> result unit
}.

(** The local variables of [generate_segmentations] that the model loop
    reads and that are not bound on every path.  [None] in the first three
    is "not bound"; [last_norm] holds a Python value, [None] being Python's
    [None]. *)
Record frame : Type := mk_frame {
  inputs : option tensor;
  pads : option pad_spec;
  crops_idx : option crop_indexes;
  last_norm : option string
}.

Definition empty_frame : frame := mk_frame None None None None.

(** A case after lines 126-136. *)
Record prepared : Type := mk_prepared {
  inputs_minmax : tensor;
  pads_minmax : pad_spec;
  crops_idx_minmax : crop_indexes;
  inputs_zscore : tensor;
  pads_zscore : pad_spec;
  crops_idx_zscore : crop_indexes
}.

(** [normalisation == other] on Python values *)
Definition norm_eqb (a b : option string) : bool := bool_decide (a = b).

(** Lines 141-150.  No branch assigns [last_norm]. *)
Definition select_inputs (normalisation : option string) (p : prepared) (fr : frame) : M frame :=
  if norm_eqb normalisation (last_norm fr) then
    mret fr
  else if norm_eqb normalisation (Some "minmax"%string) then
    _ ← emit (EvInputToGpu "minmax");
    mret (mk_frame (Some (inputs_minmax p)) (Some (pads_minmax p))
                   (Some (crops_idx_minmax p)) (last_norm fr))
  else if norm_eqb normalisation (Some "zscore"%string) then
    _ ← emit (EvInputToGpu "zscore");
    mret (mk_frame (Some (inputs_zscore p)) (Some (pads_zscore p))
                   (Some (crops_idx_zscore p)) (last_norm fr))
  else
    mret fr.

(** [pre_segs, _ = model(inputs)]: the pair unpacks; a bare tensor is
    iterated along its first axis, which must then have length two. *)
Definition unpack_pair (o : fwd_out) : result tensor :=
  match o with
  | WithAux out _ => Ok out
  | Plain t =>
      match shape t with
      | [] => Raise TypeError
      | n :: _ => if n =? 2 then getitem [IInt 0] t else Raise ValueError
      end
  end.

(** [pre_segs = model(inputs)] followed by [pre_segs.sigmoid_()] *)
Definition expect_tensor (o : fwd_out) : result tensor :=
  match o with
  | Plain t => Ok t
  | WithAux _ _ => Raise AttributeError
  end.

(** Lines 169-170: [maxz, maxy, maxx], the operands read left to right. *)
Definition pad_bounds (pre_segs : tensor) (pads : option pad_spec) : result (Z * Z * Z) :=
  s2 ← tensor_size pre_segs 2;
  pads ← read_var "pads" pads;
  s3 ← tensor_size pre_segs 3;
  s4 ← tensor_size pre_segs 4;
  Ok (s2 - pads.1.1, s3 - pads.1.2, s4 - pads.2).

(** Line 171: [pre_segs[:, :, 0:maxz, 0:maxy, 0:maxx]] *)
Definition truncate (pre_segs : tensor) (bounds : Z * Z * Z) : result tensor :=
  getitem [IAll; IAll; ISlice 0 bounds.1.1; ISlice 0 bounds.1.2; ISlice 0 bounds.2] pre_segs.

(** Lines 169-171: remove pads. *)
Definition remove_pads_var (pre_segs : tensor) (pads : option pad_spec) : result tensor :=
  bounds ← pad_bounds pre_segs pads;
  truncate pre_segs bounds.

Definition remove_pads (pre_segs : tensor) (pads : pad_spec) : result tensor :=
  remove_pads_var pre_segs (Some pads).

Definition canonical_shape : list Z := [1; 3; 155; 240; 240].

Definition crop_subscript (crops : crop_indexes) : list index :=
  [IInt 0; IAll;
   ISlice crops.1.1.1 crops.1.1.2;
   ISlice crops.1.2.1 crops.1.2.2;
   ISlice crops.2.1 crops.2.2].

(** Lines 174-175: place the cropped prediction into a zero volume.  The
    right-hand side is evaluated before the subscripts of the target. *)
Definition place_var (pre_segs : tensor) (crops : option crop_indexes) : result tensor :=
  let segs := zeros canonical_shape in
  src ← getitem [IInt 0] pre_segs;
  crops ← read_var "crops_idx" crops;
  setitem (crop_subscript crops) segs src.

Definition place (pre_segs : tensor) (crops : crop_indexes) : result tensor :=
  place_var pre_segs (Some crops).

(** Lines 169-175. *)
Definition reconstruct (pre_segs : tensor) (pads : pad_spec) (crops : crop_indexes) : result tensor :=
  pre_segs ← remove_pads pre_segs pads;
  place pre_segs crops.

Section Inference.
Context {ext : Externals}.

(** Lines 158-167: the prediction of one model, and the list of predictions
    (to which the augmented path appends). *)
Definition predict (a : args) (i : nat) (m : model) (fr : frame) (model_preds : list tensor) : M (tensor * list tensor) :=
  if tta a then
    inputs ← lift (read_var "inputs" (inputs fr));
    _ ← emit (EvForward i);
    pre_segs ← lift (apply_simple_tta m inputs true);
    mret (pre_segs, model_preds ++ [pre_segs])
  else
    let deep := deep_supervision m in
    inputs ← lift (read_var "inputs" (inputs fr));
    _ ← emit (EvForward i);
    o ← lift (forward m inputs);
    pre_segs ← lift (if deep then unpack_pair o else expect_tensor o);
    mret (map_elems sigmoid pre_segs, model_preds).

(** Lines 141-179: the body of the loop over the ensemble. *)
Definition run_model (a : args) (p : prepared) (i : nat) (m : model) (normalisation : option string) (fr : frame) (model_preds : list tensor) : M (frame * list tensor) :=
  fr ← select_inputs normalisation p fr;
  _ ← emit (EvModelToGpu i);
  '(pre_segs, model_preds) ← predict a i m fr model_preds;
  pre_segs ← lift (remove_pads_var pre_segs (pads fr));
  segs ← lift (place_var pre_segs (crops_idx fr));
  let model_preds := model_preds ++ [segs] in
  _ ← emit (EvModelToCpu i);
  mret (fr, model_preds).

(** Line 140: [for model, normalisation in zip(models, normalisations)]. *)
Fixpoint run_models (a : args) (p : prepared) (i : nat) (ms : list (model * option string)) (fr : frame) (model_preds : list tensor) : M (frame * list tensor) :=
  match ms with
  | [] => mret (fr, model_preds)
  | (m, normalisation) :: ms' =>
      '(fr, model_preds) ← run_model a p i m normalisation fr model_preds;
      run_models a p (S i) ms' fr model_preds
  end.

(** Line 181. *)
Definition ensemble_mean (model_preds : list tensor) : result tensor :=
  stacked ← stack model_preds;
  mean_dim0 stacked.

(** Lines 184-191. *)
Definition decode (pre_segs : tensor) : result tensor :=
  avg0 ← getitem [IInt 0] pre_segs;
  let segs := gt_scalar avg0 (1 # 2) in
  et ← getitem [IInt 0] segs;
  segs1 ← getitem [IInt 1] segs;
  let net := logical_and segs1 (logical_not et) in
  segs2 ← getitem [IInt 2] segs;
  let ed := logical_and segs2 (logical_not segs1) in
  let labelmap := zeros (shape et) in
  let labelmap := mask_assign labelmap et 4 in
  let labelmap := mask_assign labelmap net 1 in
  let labelmap := mask_assign labelmap ed 2 in
  Ok labelmap.

Definition output_path (a : args) (pid : string) : string :=
  (pred_folder a ++ "/" ++ pid ++ ".nii.gz")%string.

(** Lines 126-136. *)
Definition prepare (batch_minmax batch_zscore : batch) : prepared :=
  let '(inputs_minmax, pads_minmax) := pad_batch1_to_compatible_size (image batch_minmax) in
  let '(inputs_zscore, pads_zscore) := pad_batch1_to_compatible_size (image batch_zscore) in
  mk_prepared inputs_minmax pads_minmax (crop_idx batch_minmax)
              inputs_zscore pads_zscore (crop_idx batch_zscore).

(** Lines 126-196: the body of the loop over the cases.  [inputs], [pads]
    and [crops_idx] keep their bindings from one case to the next;
    [last_norm] is set to [None] at line 138. *)
Definition process_case (a : args) (ms : list (model * option string)) (c : batch * batch) (fr : frame) : M frame :=
  let '(batch_minmax, batch_zscore) := c in
  let p := prepare batch_minmax batch_zscore in
  let fr := mk_frame (inputs fr) (pads fr) (crops_idx fr) None in
  '(fr, model_preds) ← run_models a p 0 ms fr [];
  pre_segs ← lift (ensemble_mean model_preds);
  labelmap ← lift (decode pre_segs);
  let dest := output_path a (patient_id batch_minmax) in
  _ ← lift (sitk_write labelmap (seg_path batch_minmax) dest);
  _ ← emit (EvWrite dest (seg_path batch_minmax) labelmap);
  mret fr.

Fixpoint process_cases (a : args) (ms : list (model * option string)) (cs : list (batch * batch)) (fr : frame) : M frame :=
  match cs with
  | [] => mret fr
  | c :: cs' =>
      fr ← process_case a ms c fr;
      process_cases a ms cs' fr
  end.

(** Lines 120-196. *)
Definition generate_segmentations (data_loaders : list batch * list batch) (models : list model) (normalisations : list (option string)) (a : args) : M frame :=
  process_cases a (zip models normalisations)
                (zip (fst data_loaders) (snd data_loaders)) empty_frame.

End Inference.

(* ===================================================================== *)
(** * The label decode as the design states it                           *)
(* ===================================================================== *)

(** The decode of one voxel in the words of the design: threshold each
    channel at 0.5; enhancing is mask 0, necrotic is mask 1 and not
    enhancing, edema is mask 2 and not mask 1; start from 0 and assign
    enhancing to 4, then necrotic to 1, then edema to 2. *)
Definition decode_voxel_spec (p0 p1 p2 : Q) : Q :=
  let mask0 := Qgtb p0 (1 # 2) in
  let mask1 := Qgtb p1 (1 # 2) in
  let mask2 := Qgtb p2 (1 # 2) in
  let enhancing := mask0 in
  let necrotic := mask1 && negb enhancing in
  let edema := mask2 && negb mask1 in
  let out := 0%Q in
  let out := if enhancing then 4%Q else out in
  let out := if necrotic then 1%Q else out in
  let out := if edema then 2%Q else out in
  out.

(** The elementwise arithmetic mean of the members at one index. *)
Definition mean_at (members : list tensor) (idx : list Z) : Q :=
  (fold_left Qplus (map (fun t => data t idx) members) 0 / inject_Z (Z.of_nat (length members)))%Q.

(** A voxel of the canonical frame lies inside a crop window. *)
Definition inside (crops : crop_indexes) (z y x : Z) : bool :=
  ((crops.1.1.1 <=? z) && (z <? crops.1.1.2)) &&
  ((crops.1.2.1 <=? y) && (y <? crops.1.2.2)) &&
  ((crops.2.1 <=? x) && (x <? crops.2.2)).

(** A crop window lies inside the canonical frame. *)
Definition window_in_frame (crops : crop_indexes) : Prop :=
  (0 <= crops.1.1.1 <= crops.1.1.2 /\ crops.1.1.2 <= 155) /\
  (0 <= crops.1.2.1 <= crops.1.2.2 /\ crops.1.2.2 <= 240) /\
  (0 <= crops.2.1 <= crops.2.2 /\ crops.2.2 <= 240).

Definition span (w : Z * Z) : Z := w.2 - w.1.

(** The bounds of a crop window do not count from the end of an axis. *)
Definition window_nonneg (crops : crop_indexes) : Prop :=
  (0 <= crops.1.1.1 /\ 0 <= crops.1.1.2) /\
  (0 <= crops.1.2.1 /\ 0 <= crops.1.2.2) /\
  (0 <= crops.2.1 /\ 0 <= crops.2.2).

(* ===================================================================== *)
(** * Accelerator residency of the models                                *)
(* ===================================================================== *)

(** At every instant of the run at most one model's weights are resident. *)
Definition at_most_one_resident (log : list event) : Prop :=
  forall pre post, log = pre ++ post -> (size (resident ∅ pre) <= 1)%nat.

(** A forward computation of a model runs while exactly that model is
    resident. *)
Definition forward_on_resident (log : list event) : Prop :=
  forall pre post i, log = pre ++ EvForward i :: post -> resident ∅ pre = {[ i ]}.

(** A model is moved on only when no model is resident. *)
Definition load_on_free (log : list event) : Prop :=
  forall pre post i, log = pre ++ EvModelToGpu i :: post -> resident ∅ pre = ∅.

(** What the load/unload discipline asks of an event when the models in
    [g] are resident, and of a whole log. *)
Definition allowed (g : gset nat) (e : event) : Prop :=
  match e with
  | EvModelToGpu _ => g = ∅
  | EvForward i => g = {[ i ]}
  | _ => True
  end.

Fixpoint disciplined (g : gset nat) (log : list event) : Prop :=
  match log with
  | [] => True
  | e :: log' => allowed g e /\ disciplined (gpu_step g e) log'
  end.

(** No model resident, and the discipline kept so far. *)
Definition idle (log : list event) : Prop :=
  disciplined ∅ log /\ resident ∅ log = ∅.

(** Model [i] resident alone, and the discipline kept so far. *)
Definition busy (i : nat) (log : list event) : Prop :=
  disciplined ∅ log /\ resident ∅ log = {[ i ]}.

(** Pre- and postconditions on the log: from a log satisfying [P] the
    computation ends in a log satisfying [Q] when it returns and [E] when
    it raises. *)
Definition hoare {A : Type} (P : list event -> Prop) (c : M A)
    (Q : A -> list event -> Prop) (E : list event -> Prop) : Prop :=
  forall log, P log ->
    match c log with
    | (Ok a, log') => Q a log'
    | (Raise _, log') => E log'
    end.

(** A variant for which lines 143-150 transfer an input. *)
Definition needs_transfer (normalisation : option string) : bool :=
  norm_eqb normalisation (Some "minmax"%string) || norm_eqb normalisation (Some "zscore"%string).

(** Input transfers in a log; members of the ensemble that cause one. *)
Definition transfers (log : list event) : nat := length (List.filter is_input_transfer log).

Definition transferring_members (ms : list (model * option string)) : nat :=
  length (List.filter (fun mn => needs_transfer mn.2) ms).

Definition transferred (k : nat) (log : list event) : Prop := transfers log = k.

(* ===================================================================== *)
(** * Stand-ins for the collaborators, and sample inputs                 *)
(* ===================================================================== *)

Module Sample.

(** Pads the three spatial axes of a five-axis tensor with zeros at their
    ends, up to the next multiple of [k]. *)
Definition pad_amount (k d : Z) : Z := (k - d mod k) mod k.

Definition pad_to_multiple (k : Z) (t : tensor) : tensor * pad_spec :=
  match shape t with
  | [b; c; z; y; x] =>
      let pz := pad_amount k z in
      let py := pad_amount k y in
      let px := pad_amount k x in
      (mk_ndarray [b; c; z + pz; y + py; x + px] (fun idx =>
         match idx with
         | [_; _; iz; iy; ix] =>
             if (iz <? z) && (iy <? y) && (ix <? x) then data t idx else 0%Q
         | _ => 0%Q
         end),
       (pz, py, px))
  | _ => (t, (0, 0, 0))
  end.

(** A rational squashing function with values strictly between 0 and 1. *)
Definition soft_sign (q : Q) : Q := (q / (1 + Qabs q) / 2 + (1 # 2))%Q.

(** A model producing the same three logits at every voxel of its input. *)
Definition const_model (deep : bool) (l0 l1 l2 : Q) : model :=
  mk_model deep (fun inp =>
    match shape inp with
    | [b; _; z; y; x] =>
        let out := mk_ndarray [b; 3; z; y; x] (fun idx =>
          match idx with
          | [_; c; _; _; _] => if c =? 0 then l0 else if c =? 1 then l1 else l2
          | _ => 0%Q
          end) in
        Ok (if deep then WithAux out [] else Plain out)
    | _ => Raise InferenceError
    end).

Definition externals : Externals := {|
  pad_batch1_to_compatible_size := pad_to_multiple 2;
  apply_simple_tta := fun m x _ =>
    o ← forward m x;
    Ok (map_elems soft_sign match o with Plain t => t | WithAux t _ => t end);
  sigmoid := soft_sign;
  sitk_write := fun _ _ _ => Ok tt
|}.

(** The same collaborators with a writer whose destination is not
    writable. *)
Definition readonly_externals : Externals := {|
  pad_batch1_to_compatible_size := pad_to_multiple 2;
  apply_simple_tta := @apply_simple_tta externals;
  sigmoid := soft_sign;
  sitk_write := fun _ _ _ => Raise WriteError
|}.

(** A model whose forward computation fails. *)
Definition failing_model : model := mk_model false (fun _ => Raise InferenceError).

Definition const_tensor (sh : list Z) (v : Q) : tensor := mk_ndarray sh (fun _ => v).

(** A 2x2x2 crop of four modalities, at (10..12, 20..22, 30..32). *)
Definition good_batch (pid : string) : batch :=
  mk_batch pid ("data/" ++ pid ++ "_seg.nii.gz") ((10, 12), (20, 22), (30, 32))
           (const_tensor [1; 4; 2; 2; 2] 1).

(** The same crop with a window one voxel short on the first axis. *)
Definition short_window_batch (pid : string) : batch :=
  mk_batch pid ("data/" ++ pid ++ "_seg.nii.gz") ((10, 11), (20, 22), (30, 32))
           (const_tensor [1; 4; 2; 2; 2] 1).

(** A 3x2x2 crop: one slice of padding on the first axis. *)
Definition odd_batch (pid : string) : batch :=
  mk_batch pid ("data/" ++ pid ++ "_seg.nii.gz") ((10, 13), (20, 22), (30, 32))
           (const_tensor [1; 4; 3; 2; 2] 1).

Definition loaders (bs : list batch) : list batch * list batch := (bs, bs).

Definition enhancing_model : model := const_model false 4 4 4.

(** With deep supervision, and logits for a core that is not enhancing. *)
Definition necrotic_model : model := const_model true (-4) 4 4.

Definition sample_args (use_tta : bool) : args := mk_args use_tta "preds/run".

End Sample.


(* ===================================================================== *)
(** * Closed forms used to state further properties                      *)
(* ===================================================================== *)

(** What line 171 keeps of an axis of length [n] when the pad amount is
    [p]: the bound [n - p] is clamped to the axis when the pad is negative
    and counts from the end of the axis when the pad exceeds [n]. *)
Definition kept_length (n p : Z) : Z :=
  if p <? 0 then n
  else if p <=? n then n - p
  else Z.max 0 (2 * n - p).

(** An axis of the crop fits the region it is assigned to when the lengths
    agree or the crop has length 1 on it; a crop with shape
    (c, dz, dy, dx) fits the part of a window that lies in the canonical
    frame when every axis does. *)
Definition axis_fits (d len : Z) : bool := (d =? len) || (d =? 1).

Definition crop_fits (c dz dy dx : Z) (crops : crop_indexes) : bool :=
  axis_fits c 3 &&
  axis_fits dz (slice_len crops.1.1.1 crops.1.1.2 155) &&
  axis_fits dy (slice_len crops.1.2.1 crops.1.2.2 240) &&
  axis_fits dx (slice_len crops.2.1 crops.2.2 240).

(** The events of the loop over the ensemble when every pass goes through:
    for each member in order the transfer of its input, if its variant is
    one of the two, then its move to the accelerator, its forward
    computation and its move back. *)
Definition transfer_events (normalisation : option string) : list event :=
  if norm_eqb normalisation (Some "minmax"%string) then [EvInputToGpu "minmax"]
  else if norm_eqb normalisation (Some "zscore"%string) then [EvInputToGpu "zscore"]
  else [].

Fixpoint ensemble_events (i : nat) (normalisations : list (option string)) : list event :=
  match normalisations with
  | [] => []
  | n :: ns =>
      transfer_events n ++ [EvModelToGpu i; EvForward i; EvModelToCpu i] ++
      ensemble_events (S i) ns
  end.

(** The destination of the volume of a case. *)
Definition case_output (a : args) (c : batch * batch) : string :=
  output_path a (patient_id c.1).

(** The destinations written so far are [w]. *)
Definition wrote (w : list string) (log : list event) : Prop := written log = w.

(** A computation whose outcome does not depend on the log it starts from
    and that only appends its own events to it. *)
Definition appends {A : Type} (c : M A) : Prop :=
  exists r d, forall log, c log = (r, log ++ d).

(** The events of a log other than the transfers of an input. *)
Definition without_transfers (log : list event) : list event :=
  List.filter (fun e => negb (is_input_transfer e)) log.

(* ===================================================================== *)
(** * The driver: [main]                                                 *)
(* ===================================================================== *)

Module Driver.
Import Stdlib.Strings.Ascii.

(** A scalar of a configuration file. *)
Inductive yaml : Type :=
| YNull
| YBool (b : bool)
| YInt (z : Z)
| YNum (q : Q)
| YStr (s : string).

(** A configuration file given on the command line: its resolved path, as
    the components below the root, and the document [yaml.safe_load]
    returns for it, [None] when that is not a mapping. *)
Record config_file : Type := mk_config_file {
  location : list string;
  content : option (gmap string yaml)
}.

(** The [SimpleNamespace] of line 62: the entries of the file, and the
    checkpoint path under [ckpt]. *)
Record namespace : Type := mk_namespace {
  attrs : gmap string yaml;
  ckpt : list string
}.

(** The command line: [--config] (each file as above), [--on], [--tta] and
    [--seed]. *)
Record cli : Type := mk_cli {
  config : list config_file;
  on : string;
  cli_tta : bool;
  seed : yaml
}.

(** [path.with_name(name)]: the last component replaced; a path without
    one has an empty name. *)
Definition with_name (path : list string) (name : string) : result (list string) :=
  match path with
  | [] => Raise ValueError
  | _ :: _ => Ok (removelast path ++ [name])
  end.

(** Lines 57-65: one configuration file to the arguments of its model. *)
Definition load_args (cf : config_file) : result namespace :=
  ckpt ← with_name (location cf) "model_best.pth.tar";
  match content cf with
  | None => Raise TypeError
  | Some old_args =>
      if bool_decide (is_Some (old_args !! "ckpt"%string)) then Raise TypeError
      else
        let old_args :=
          if bool_decide (is_Some (old_args !! "normalisation"%string)) then old_args
          else <[ "normalisation"%string := YStr "minmax" ]> old_args in
        Ok (mk_namespace old_args ckpt)
  end.

(** Lines 55-67. *)
Fixpoint load_loop (configs : list config_file) (args_list : list namespace) : result (list namespace) :=
  match configs with
  | [] => Ok args_list
  | cf :: configs' =>
      old_args ← load_args cf;
      load_loop configs' (args_list ++ [old_args])
  end.

(** [str.replace(":", "")] *)
Fixpoint remove_colons (s : string) : string :=
  match s with
  | EmptyString => EmptyString
  | String ch s' =>
      if Ascii.eqb ch ":"%char then remove_colons s' else String ch (remove_colons s')
  end.

(** The string has a colon in it. *)
Fixpoint has_colon (s : string) : bool :=
  match s with
  | EmptyString => false
  | String ch s' => Ascii.eqb ch ":"%char || has_colon s'
  end.

(** The text of a Python [bool] in an f-string. *)
Definition bool_text (b : bool) : string := if b then "True" else "False".

(** Lines 48-49 and 70-78: the folder of the predictions, for the clock
    reading [now] formatted as ['%Y%m%d_%T']. *)
Definition save_folder (now : string) : string :=
  ("preds/" ++ remove_colons now)%string.

Definition pred_folder_of (now : string) (on : string) (tta : bool) : string :=
  if String.eqb on "test" then
    (save_folder now ++ "/" ++ "test_segs_tta" ++ bool_text tta)%string
  else if String.eqb on "val" then
    (save_folder now ++ "/" ++ "validation_segs_tta" ++ bool_text tta)%string
  else
    (save_folder now ++ "/" ++ "training_segs_tta" ++ bool_text tta)%string.

(** A normalisation read from a configuration, as the value the inference
    loop compares: a string, Python's [None], or for any other scalar a
    text that, like the scalar, equals neither [None] nor a variant name. *)
Definition python_norm (y : yaml) : option string :=
  match y with
  | YStr s => Some s
  | YNull => None
  | YBool _ | YInt _ | YNum _ => Some "(not a string)"%string
  end.

(** The functions [main] imports: the model constructors of [src.models]
    by name, [get_norm_layer], [reload_ckpt_bis], [get_datasets] with a
    loader of batch size one on it, and the clock. *)
Class DriverExternals : Type := {
  norm_layer : Type;
  models_module :
    gmap string (Z -> Z -> yaml -> yaml -> norm_layer -> yaml -> result model);
  get_norm_layer : yaml -> result norm_layer;
  reload_ckpt_bis : list string -> model -> result model;
  get_datasets : yaml -> string -> string -> result (list batch);
  now : string
}.

Section Main.
Context {ext : Externals} {dext : DriverExternals}.

(** [model_args.name] *)
Definition attr (model_args : namespace) (name : string) : result yaml :=
  match attrs model_args !! name with
  | Some v => Ok v
  | None => Raise AttributeError
  end.

(** [getattr(models, arch)] *)
Definition model_maker (arch : yaml) :
    result (Z -> Z -> yaml -> yaml -> norm_layer -> yaml -> result model) :=
  match arch with
  | YStr name =>
      match models_module !! name with
      | Some maker => Ok maker
      | None => Raise AttributeError
      end
  | _ => Raise TypeError
  end.

(** Lines 87-98: one member of the ensemble and its normalisation. *)
Definition build_member (model_args : namespace) : result (model * yaml) :=
  arch ← attr model_args "arch";
  maker ← model_maker arch;
  width ← attr model_args "width";
  deep_sup ← attr model_args "deep_sup";
  norm_name ← attr model_args "norm_layer";
  layer ← get_norm_layer norm_name;
  dropout ← attr model_args "dropout";
  model ← maker 4 3 width deep_sup layer dropout;
  model ← reload_ckpt_bis (ckpt model_args) model;
  normalisation ← attr model_args "normalisation";
  Ok (model, normalisation).

(** Lines 82-100. *)
Fixpoint build_loop (args_list : list namespace) (models_list : list model)
    (normalisations_list : list yaml) : result (list model * list yaml) :=
  match args_list with
  | [] => Ok (models_list, normalisations_list)
  | model_args :: args_list' =>
      '(model, normalisation) ← build_member model_args;
      build_loop args_list' (models_list ++ [model]) (normalisations_list ++ [normalisation])
  end.

(** Lines 55-100: the ensemble [main] hands to the inference loop. *)
Definition ensemble_of (c : cli) : result (list model * list (option string)) :=
  args_list ← load_loop (config c) [];
  '(models_list, normalisations_list) ← build_loop args_list [] [];
  Ok (models_list, map python_norm normalisations_list).

(** Lines 38-117.  The creation of the folders, the file of the arguments
    and the printing have no part in what follows them and are left out. *)
Definition main (c : cli) : M frame :=
  args_list ← lift (load_loop (config c) []);
  let a := mk_args (cli_tta c) (pred_folder_of now (on c) (cli_tta c)) in
  '(models_list, normalisations_list) ← lift (build_loop args_list [] []);
  dataset_minmax ← lift (get_datasets (seed c) (on c) "minmax");
  dataset_zscore ← lift (get_datasets (seed c) (on c) "zscore");
  generate_segmentations (dataset_minmax, dataset_zscore) models_list
                         (map python_norm normalisations_list) a.

End Main.

End Driver.

(** Stand-ins for what [main] imports, and sample command lines. *)
Module DriverSample.
Import Driver.

Definition externals : DriverExternals := {|
  norm_layer := string;
  models_module :=
    {[ "Unet"%string := fun _ _ _ deep_sup _ _ =>
         match deep_sup with
         | YBool deep => Ok (Sample.const_model deep 4 4 4)
         | _ => Raise TypeError
         end ]};
  get_norm_layer := fun y =>
    match y with
    | YStr name => Ok name
    | _ => Raise ValueError
    end;
  reload_ckpt_bis := fun _ m => Ok m;
  get_datasets := fun _ _ _ => Ok [Sample.good_batch "p1"; Sample.odd_batch "p2"];
  now := "20240131_12:30:45"%string
|}.

(** The entries of a configuration of the training script. *)
Definition unet_entries : gmap string yaml :=
  {[ "arch"%string := YStr "Unet"; "width"%string := YInt 48;
     "deep_sup"%string := YBool false; "norm_layer"%string := YStr "group";
     "dropout"%string := YNum 0 ]}.

Definition plain_config : config_file :=
  mk_config_file ["runs"; "a"; "config.yaml"]%string (Some unet_entries).

Definition null_config : config_file :=
  mk_config_file ["runs"; "b"; "config.yaml"]%string
    (Some (<[ "normalisation"%string := YNull ]> unet_entries)).

Definition sample_cli (configs : list config_file) : cli :=
  mk_cli configs "val" false (YInt 16111990).

End DriverSample.
(* ===================================================================== *)
(** * Slicing                                                            *)
(* ===================================================================== *)

Section SliceFacts.

Lemma clamp_in (i n : Z) : 0 <= i <= n -> clamp i n = i.
Proof. intros Hi. unfold clamp. destruct (Z.ltb_spec i 0); lia. Qed.

Lemma slice_lo_in (a n : Z) : 0 <= a <= n -> slice_lo a n = a.
Proof. apply clamp_in. Qed.

Lemma slice_len_in (a b n : Z) : 0 <= a <= b -> b <= n -> slice_len a b n = b - a.
Proof.
  intros Hab Hbn. unfold slice_len, slice_hi, slice_lo.
  rewrite !clamp_in by lia. lia.
Qed.

(** With bounds that do not count from the end, the slice is never longer
    than [stop - start]. *)
Lemma slice_len_le_span (a b n : Z) :
  0 <= a -> 0 <= b -> 0 <= n -> 0 <= slice_len a b n <= Z.max 0 (b - a).
Proof.
  intros Ha Hb Hn. unfold slice_len, slice_hi, slice_lo, clamp.
  destruct (Z.ltb_spec a 0), (Z.ltb_spec b 0); lia.
Qed.

Lemma size_shape (t : tensor) (k : nat) (n : Z) : shape t !! k = Some n -> tensor_size t k = Ok n.
Proof. intros Hk. unfold tensor_size. now rewrite Hk. Qed.

Lemma norm_int_in (k n : Z) : 0 <= k < n -> norm_int k n = Ok k.
Proof.
  intros Hk. unfold norm_int.
  destruct (Z.ltb_spec k 0); [lia |].
  destruct (Z.leb_spec 0 k), (Z.ltb_spec k n); cbn; (reflexivity || lia).
Qed.

(** Taking item [k] along the first axis. *)
Lemma getitem_int {A : Type} (t : ndarray A) (k n : Z) (sh : list Z) :
  shape t = n :: sh -> 0 <= k < n ->
  exists t', getitem [IInt k] t = Ok t' /\ shape t' = sh /\
    forall idx, length idx = length sh -> data t' idx = data t (k :: idx).
Proof.
  intros Hsh Hk. unfold getitem. rewrite Hsh. cbn.
  rewrite (norm_int_in k n Hk). cbn.
  eexists. split; [reflexivity |]. cbn. split.
  - clear. induction sh as [| m sh IH]; cbn; [reflexivity | now rewrite IH].
  - intros idx Hlen. f_equal. f_equal. clear - Hlen.
    revert idx Hlen. induction sh as [| m sh IH]; intros [| i idx] Hlen;
      cbn in *; try discriminate; try reflexivity.
    f_equal. apply IH. lia.
Qed.

Lemma getitem_0 {A : Type} (t : ndarray A) (n : Z) (sh : list Z) :
  shape t = n :: sh -> 0 < n ->
  exists t', getitem [IInt 0] t = Ok t' /\ shape t' = sh /\
    forall idx, length idx = length sh -> data t' idx = data t (0 :: idx).
Proof. intros Hsh Hn. apply (getitem_int t 0 n sh Hsh). lia. Qed.

End SliceFacts.

(* ===================================================================== *)
(** * Reconstruction: removing the pads and placing the crop             *)
(* ===================================================================== *)

Section Reconstruction.

Lemma bcast_coord (d j : Z) : 0 <= j < d -> (if d =? 1 then 0 else j) = j.
Proof. intros Hj. destruct (Z.eqb_spec d 1); lia. Qed.

(** Lines 169-171 on a five-axis tensor, with pad amounts within the axis
    lengths. *)
Lemma remove_pads_leading (t : tensor) (b c z y x pz py px : Z) :
  shape t = [b; c; z; y; x] ->
  0 <= pz <= z -> 0 <= py <= y -> 0 <= px <= x ->
  exists t', remove_pads t (pz, py, px) = Ok t' /\
    shape t' = [b; c; z - pz; y - py; x - px] /\
    forall idx, in_range (shape t') idx -> data t' idx = data t idx.
Proof.
  intros Hsh Hz Hy Hx.
  unfold remove_pads, remove_pads_var, pad_bounds, truncate, getitem.
  rewrite !(size_shape t _ _) by (rewrite Hsh; reflexivity).
  cbn. rewrite Hsh. cbn.
  eexists. split; [reflexivity |]. cbn.
  rewrite !slice_len_in, !slice_lo_in by lia.
  split; [f_equal; f_equal; f_equal; [lia | f_equal; [lia | f_equal; lia]] |].
  intros idx Hin.
  destruct idx as [| ib [| ic [| iz [| iy [| ix [| ? ?]]]]]];
    try (exfalso; cbn in Hin; tauto).
  reflexivity.
Qed.

(** C6. With a pad amount between 0 and the axis length on each spatial
    axis, removing the pads succeeds and shortens each spatial axis by
    exactly its pad amount; it keeps the leading region and discards the
    trailing one: every index of the truncated tensor is an index of the
    raw output, below the length minus the pad amount on each spatial axis,
    and the two tensors agree there. *)
Theorem remove_pads_truncates (t : tensor) (b c z y x pz py px : Z) :
  shape t = [b; c; z; y; x] ->
  0 <= pz <= z -> 0 <= py <= y -> 0 <= px <= x ->
  exists t', remove_pads t (pz, py, px) = Ok t' /\
    tensor_size t' 2 = Ok (z - pz) /\
    tensor_size t' 3 = Ok (y - py) /\
    tensor_size t' 4 = Ok (x - px) /\
    shape t' = [b; c; z - pz; y - py; x - px] /\
    forall idx, in_range (shape t') idx ->
      in_range (shape t) idx /\ data t' idx = data t idx.
Proof.
  intros Hsh Hz Hy Hx.
  destruct (remove_pads_leading t b c z y x pz py px Hsh Hz Hy Hx)
    as (t' & Hok & Hsh' & Hdata).
  exists t'. split; [exact Hok |].
  repeat (split; [apply size_shape; rewrite Hsh'; reflexivity |]).
  split; [exact Hsh' |].
  intros idx Hin. split; [| now apply Hdata].
  rewrite Hsh' in Hin. rewrite Hsh.
  destruct idx as [| ib [| ic [| iz [| iy [| ix [| ? ?]]]]]];
    try (exfalso; cbn in Hin; tauto).
  cbn in Hin |- *. lia.
Qed.

Lemma remove_pads_truncates_witness :
  exists t', remove_pads (Sample.const_tensor [1; 3; 4; 2; 2] 1) (1, 0, 0) = Ok t' /\
    tensor_size t' 2 = Ok (4 - 1) /\
    tensor_size t' 3 = Ok (2 - 0) /\
    tensor_size t' 4 = Ok (2 - 0) /\
    shape t' = [1; 3; 4 - 1; 2 - 0; 2 - 0] /\
    forall idx, in_range (shape t') idx ->
      in_range (shape (Sample.const_tensor [1; 3; 4; 2; 2] 1)) idx /\
      data t' idx = data (Sample.const_tensor [1; 3; 4; 2; 2] 1) idx.
Proof.
  apply (remove_pads_truncates (Sample.const_tensor [1; 3; 4; 2; 2] 1) 1 3 4 2 2 1 0 0);
    [reflexivity | lia | lia | lia].
Defined.

(** Outside the pad invariant the slice bound counts from the end: a pad of
    12 on an axis of length 10 leaves 8 elements. *)
Example remove_pads_overpadded :
  shape_of (remove_pads (Sample.const_tensor [1; 3; 10; 2; 2] 1) (12, 0, 0)) =
    Some [1; 3; 8; 2; 2].
Proof. reflexivity. Qed.

(** Placing a crop whose size is the window's: inside the window the field
    holds the crop, shifted by the window's offsets; elsewhere it is zero. *)
Lemma place_in_window (tr : tensor) (b dz dy dx : Z) (crops : crop_indexes) :
  shape tr = [b; 3; dz; dy; dx] -> 0 < b ->
  window_in_frame crops ->
  dz = span crops.1.1 -> dy = span crops.1.2 -> dx = span crops.2 ->
  exists f, place tr crops = Ok f /\ shape f = canonical_shape /\
    forall c z y x, 0 <= c < 3 ->
      data f [0; c; z; y; x] =
        if inside crops z y x
        then data tr [0; c; z - crops.1.1.1; y - crops.1.2.1; x - crops.2.1]
        else 0%Q.
Proof.
  intros Hsh Hb Hw Hz Hy Hx.
  destruct crops as [[[az bz] [ay by_]] [ax bx]].
  unfold window_in_frame, span in *. cbn in Hw, Hz, Hy, Hx.
  destruct Hw as ([Hz1 Hz2] & [Hy1 Hy2] & [Hx1 Hx2]).
  unfold place, place_var.
  destruct (getitem_0 tr b _ Hsh Hb) as (src & Hsrc & Hssh & Hsd).
  rewrite Hsrc. cbn. unfold setitem, crop_subscript. cbn.
  rewrite !slice_len_in, !slice_lo_in by lia.
  rewrite Hssh. unfold expandable. cbn.
  rewrite <- Hz, <- Hy, <- Hx, !Z.eqb_refl. cbn.
  eexists. split; [reflexivity |]. split; [reflexivity |].
  intros c z y x Hc. cbn. unfold inside. cbn.
  replace ((0 <=? c) && (c <? 0 + 3)) with true by lia.
  replace (az + dz) with bz by lia.
  replace (ay + dy) with by_ by lia.
  replace (ax + dx) with bx by lia.
  destruct (Z.leb_spec az z), (Z.ltb_spec z bz); cbn; try reflexivity;
  destruct (Z.leb_spec ay y), (Z.ltb_spec y by_); cbn; try reflexivity;
  destruct (Z.leb_spec ax x), (Z.ltb_spec x bx); cbn; try reflexivity.
  rewrite !bcast_coord by lia. rewrite Hsd by reflexivity.
  now rewrite Z.sub_0_r.
Qed.

(** Lines 169-175 on a padded crop of the window's size. *)
Lemma reconstruct_in_window (t : tensor) (b : Z) (pads : pad_spec) (crops : crop_indexes) :
  0 < b -> window_in_frame crops ->
  0 <= pads.1.1 -> 0 <= pads.1.2 -> 0 <= pads.2 ->
  shape t = [b; 3; span crops.1.1 + pads.1.1; span crops.1.2 + pads.1.2;
             span crops.2 + pads.2] ->
  exists f, reconstruct t pads crops = Ok f /\ shape f = canonical_shape /\
    forall c z y x, 0 <= c < 3 ->
      data f [0; c; z; y; x] =
        if inside crops z y x
        then data t [0; c; z - crops.1.1.1; y - crops.1.2.1; x - crops.2.1]
        else 0%Q.
Proof.
  intros Hb Hw Hpz Hpy Hpx Hsh.
  destruct pads as [[pz py] px]. cbn in Hpz, Hpy, Hpx, Hsh.
  assert (Hspan : 0 <= span crops.1.1 /\ 0 <= span crops.1.2 /\ 0 <= span crops.2).
  { unfold window_in_frame, span in *. lia. }
  destruct (remove_pads_leading t _ _ _ _ _ pz py px Hsh)
    as (tr & Htr & Htrsh & Htrd); try lia.
  unfold reconstruct. rewrite Htr. cbn.
  destruct (place_in_window tr b _ _ _ crops Htrsh Hb Hw)
    as (f & Hf & Hfsh & Hfd); try lia.
  exists f. split; [exact Hf |]. split; [exact Hfsh |].
  intros c z y x Hc. rewrite (Hfd c z y x Hc).
  destruct (inside crops z y x) eqn:Hin; [| reflexivity].
  apply Htrd. rewrite Htrsh. unfold inside in Hin. cbn.
  unfold span in *. lia.
Qed.

(** The reconstructed field always has the canonical shape. *)
Lemma place_var_shape (pre_segs segs : tensor) (crops : option crop_indexes) :
  place_var pre_segs crops = Ok segs -> shape segs = canonical_shape.
Proof.
  unfold place_var, setitem. cbn -[getitem resolve expandable canonical_shape].
  destruct (getitem [IInt 0] pre_segs) as [src |]; [| discriminate].
  destruct crops as [crops |]; [| discriminate].
  cbn -[getitem resolve expandable canonical_shape].
  destruct (resolve _ _) as [sels |]; [| discriminate].
  cbn -[expandable canonical_shape].
  destruct (expandable _ _); [| discriminate].
  intros [= <-]. reflexivity.
Qed.

(** A constant tensor stays constant under indexing and pad removal. *)
Lemma getitem_const {A : Type} (ix : list index) (t t' : ndarray A) (v : A) :
  (forall idx, data t idx = v) -> getitem ix t = Ok t' -> forall idx, data t' idx = v.
Proof.
  intros Hv. unfold getitem. destruct (resolve ix (shape t)) as [sels |]; [| discriminate].
  cbn. intros [= <-] idx. apply Hv.
Qed.

Lemma remove_pads_const (t tr : tensor) (pads : pad_spec) (v : Q) :
  (forall idx, data t idx = v) -> remove_pads t pads = Ok tr -> forall idx, data tr idx = v.
Proof.
  intros Hv. unfold remove_pads, remove_pads_var.
  destruct (pad_bounds t (Some pads)) as [bounds |]; [| discriminate].
  cbn -[truncate]. unfold truncate. apply getitem_const, Hv.
Qed.

Lemma place_const (tr f : tensor) (crops : crop_indexes) (v : Q) :
  window_in_frame crops -> (forall idx, data tr idx = v) ->
  place tr crops = Ok f ->
  shape f = canonical_shape /\
  forall c z y x, 0 <= c < 3 ->
    data f [0; c; z; y; x] = if inside crops z y x then v else 0%Q.
Proof.
  intros Hw Hv Hf. split; [apply (place_var_shape _ _ _ Hf) |].
  revert Hf. unfold place, place_var.
  destruct (getitem [IInt 0] tr) as [src |] eqn:Hsrc; [| discriminate].
  pose proof (getitem_const _ _ _ _ Hv Hsrc) as Hsv.
  destruct crops as [[[az bz] [ay by_]] [ax bx]].
  unfold window_in_frame in Hw. cbn in Hw.
  destruct Hw as ([Hz1 Hz2] & [Hy1 Hy2] & [Hx1 Hx2]).
  cbn -[expandable]. unfold setitem, crop_subscript. cbn -[expandable].
  rewrite !slice_len_in, !slice_lo_in by lia.
  destruct (expandable _ _); [| discriminate].
  intros [= <-] c z y x Hc. cbn. unfold inside. cbn.
  replace ((0 <=? c) && (c <? 0 + 3)) with true by lia.
  replace (az + (bz - az)) with bz by lia.
  replace (ay + (by_ - ay)) with by_ by lia.
  replace (ax + (bx - ax)) with bx by lia.
  destruct (Z.leb_spec az z), (Z.ltb_spec z bz); cbn; try reflexivity;
  destruct (Z.leb_spec ay y), (Z.ltb_spec y by_); cbn; try reflexivity;
  destruct (Z.leb_spec ax x), (Z.ltb_spec x bx); cbn; try reflexivity.
  apply Hsv.
Qed.

(** C5. For every pad spec and every crop window inside the canonical
    frame: a field reconstructed from a tensor of constant value [v] is [v]
    at exactly the voxels inside the window and zero at every voxel outside
    it; and from the padded crop of the window, of value [v] at each of its
    indices, the reconstruction does produce such a field. *)
Theorem reconstruct_constant (t : tensor) (pads : pad_spec) (crops : crop_indexes) (v : Q) :
  window_in_frame crops ->
  ((forall idx, data t idx = v) ->
   forall f, reconstruct t pads crops = Ok f ->
     shape f = canonical_shape /\
     forall c z y x, 0 <= c < 3 ->
       data f [0; c; z; y; x] = if inside crops z y x then v else 0%Q) /\
  (forall b, 0 < b -> 0 <= pads.1.1 -> 0 <= pads.1.2 -> 0 <= pads.2 ->
     shape t = [b; 3; span crops.1.1 + pads.1.1; span crops.1.2 + pads.1.2;
                span crops.2 + pads.2] ->
     (forall idx, in_range (shape t) idx -> data t idx = v) ->
     exists f, reconstruct t pads crops = Ok f /\
       shape f = canonical_shape /\
       forall c z y x, 0 <= c < 3 ->
         data f [0; c; z; y; x] = if inside crops z y x then v else 0%Q).
Proof.
  intros Hw. split.
  - intros Hv f. unfold reconstruct.
    destruct (remove_pads t pads) as [tr |] eqn:Htr; [| discriminate].
    cbn -[place]. apply place_const; [exact Hw |].
    apply (remove_pads_const t tr pads v Hv Htr).
  - intros b Hb Hpz Hpy Hpx Hsh Hv.
    destruct (reconstruct_in_window t b pads crops Hb Hw Hpz Hpy Hpx Hsh)
      as (f & Hf & Hfsh & Hfd).
    exists f. split; [exact Hf |]. split; [exact Hfsh |].
    intros c z y x Hc. rewrite (Hfd c z y x Hc).
    destruct (inside crops z y x) eqn:Hin; [| reflexivity].
    apply Hv. rewrite Hsh. unfold inside in Hin. unfold span. cbn. lia.
Qed.

Lemma reconstruct_constant_witness :
  let t := Sample.const_tensor [1; 3; 3; 2; 2] (9 # 10) in
  let crops : crop_indexes := ((10, 12), (20, 22), (30, 32)) in
  (forall f, reconstruct t (1, 0, 0) crops = Ok f ->
     shape f = canonical_shape /\
     forall c z y x, 0 <= c < 3 ->
       data f [0; c; z; y; x] = if inside crops z y x then 9 # 10 else 0%Q) /\
  exists f, reconstruct t (1, 0, 0) crops = Ok f /\
    shape f = canonical_shape /\
    forall c z y x, 0 <= c < 3 ->
      data f [0; c; z; y; x] = if inside crops z y x then 9 # 10 else 0%Q.
Proof.
  intros t crops.
  destruct (reconstruct_constant t (1, 0, 0) crops (9 # 10)) as [Hval Hex].
  - unfold window_in_frame. simpl. lia.
  - split; [apply Hval; reflexivity |].
    apply (Hex 1); [lia | simpl; lia | simpl; lia | simpl; lia | reflexivity |].
    intros idx _. reflexivity.
Defined.

(** C4, as the code has it.  When the pad-stripped prediction is longer than
    the window's span on a spatial axis and has at least two voxels on that
    axis, the slice assignment raises the shape error; nothing is clipped or
    wrapped.  A pad-stripped axis of length 1 is broadcast instead. *)
Theorem reconstruct_oversize_raises (t tr : tensor) (pads : pad_spec) (crops : crop_indexes) (b c dz dy dx : Z) :
  remove_pads t pads = Ok tr ->
  shape tr = [b; c; dz; dy; dx] -> 0 < b ->
  window_nonneg crops ->
  (span crops.1.1 < dz /\ 2 <= dz) \/
  (span crops.1.2 < dy /\ 2 <= dy) \/
  (span crops.2 < dx /\ 2 <= dx) ->
  reconstruct t pads crops = Raise ShapeMismatch.
Proof.
  intros Htr Hsh Hb Hw Hover.
  unfold reconstruct. rewrite Htr. cbn -[place]. unfold place, place_var.
  destruct (getitem_0 tr b _ Hsh Hb) as (src & Hsrc & Hssh & _).
  rewrite Hsrc. cbn. unfold setitem, crop_subscript. cbn.
  rewrite Hssh.
  destruct crops as [[[az bz] [ay by_]] [ax bx]].
  unfold window_nonneg, span in *. cbn in Hw, Hover |- *.
  pose proof (slice_len_le_span az bz 155) as Lz.
  pose proof (slice_len_le_span ay by_ 240) as Ly.
  pose proof (slice_len_le_span ax bx 240) as Lx.
  set (lz := slice_len az bz 155) in *.
  set (ly := slice_len ay by_ 240) in *.
  set (lx := slice_len ax bx 240) in *.
  match goal with
  | |- (if ?e then _ else _) = _ => assert (Hex : e = false); [| now rewrite Hex]
  end.
  destruct (Z.eqb_spec c 1); [destruct (Z.eqb_spec dz 1);
    [destruct (Z.eqb_spec dy 1); [destruct (Z.eqb_spec dx 1) |] |] |]; cbn;
  apply not_true_is_false; intros Hex;
  rewrite ?andb_true_iff, ?orb_true_iff, ?Z.eqb_eq in Hex; lia.
Qed.

Lemma reconstruct_oversize_raises_witness :
  reconstruct (Sample.const_tensor [1; 3; 2; 2; 2] (9 # 10)) (0, 0, 0)
              ((10, 11), (20, 22), (30, 32)) = Raise ShapeMismatch.
Proof.
  apply (reconstruct_oversize_raises _ (mk_ndarray [1; 3; 2; 2; 2] (fun _ => 9 # 10))
           (0, 0, 0) ((10, 11), (20, 22), (30, 32)) 1 3 2 2 2).
  - reflexivity.
  - reflexivity.
  - lia.
  - unfold window_nonneg. simpl. lia.
  - left. unfold span. simpl. lia.
Defined.

(** C4 does not hold as stated: a pad-stripped axis of length 1 exceeds the
    span of an empty window, and the assignment broadcasts it into the empty
    region without any error; the prediction is dropped. *)
Lemma reconstruct_singleton_into_empty_window :
  let t := Sample.const_tensor [1; 3; 1; 2; 2] (9 # 10) in
  let crops : crop_indexes := ((5, 5), (0, 2), (0, 2)) in
  shape_of (remove_pads t (0, 0, 0)) = Some [1; 3; 1; 2; 2] /\
  span crops.1.1 < 1 /\
  window_in_frame crops /\
  reconstruct t (0, 0, 0) crops <> Raise ShapeMismatch /\
  is_ok (reconstruct t (0, 0, 0) crops) = true /\
  value_at (reconstruct t (0, 0, 0) crops) [0; 0; 5; 0; 0] = Some 0%Q.
Proof.
  cbv zeta. split; [reflexivity |]. split; [unfold span; simpl; lia |].
  split; [unfold window_in_frame; simpl; lia |].
  split; [discriminate |]. split; reflexivity.
Qed.

End Reconstruction.

(* ===================================================================== *)
(** * Aggregation over the ensemble                                      *)
(* ===================================================================== *)

Section Aggregation.

Lemma Qmean_one (x : Q) : ((0 + x) / inject_Z 1)%Q = x.
Proof.
  destruct x as [n d]. unfold Qdiv, Qmult, Qplus, Qinv, inject_Z. cbn.
  f_equal; [lia | apply Pos.mul_1_r].
Qed.

(** C9. The reduction of a single accumulated field succeeds and returns a
    field of the same shape with exactly the same value at every index. *)
Theorem ensemble_mean_single (t : tensor) :
  exists r, ensemble_mean [t] = Ok r /\ shape r = shape t /\
    forall idx, data r idx = data t idx.
Proof.
  unfold ensemble_mean, stack, mean_dim0. cbn.
  eexists. split; [reflexivity |]. split; [reflexivity |].
  intros idx. cbn. unfold qsum. cbn. apply Qmean_one.
Qed.

Lemma map_nth_seq {A : Type} (l : list A) (d : A) :
  map (fun i => nth i l d) (seq 0 (length l)) = l.
Proof.
  induction l as [| a l IH]; [reflexivity |].
  cbn. f_equal. rewrite <- seq_shift, map_map. exact IH.
Qed.

(** Line 181 on fields of one shape: the value at each index is the
    arithmetic mean of the members' values at that index. *)
Lemma ensemble_mean_is_mean (t0 : tensor) (rest : list tensor) :
  Forall (fun t => shape t = shape t0) rest ->
  exists r, ensemble_mean (t0 :: rest) = Ok r /\ shape r = shape t0 /\
    forall idx, data r idx = mean_at (t0 :: rest) idx.
Proof.
  intros Hsh. unfold ensemble_mean, stack.
  assert (Hall : forallb (fun t => shape_eqb (shape t) (shape t0)) rest = true).
  { apply forallb_forall. intros t Ht. rewrite Forall_forall in Hsh.
    unfold shape_eqb. apply bool_decide_eq_true. apply Hsh.
    now apply list_elem_of_In. }
  rewrite Hall. cbn -[Z.of_nat nth Z.to_nat seq]. unfold mean_dim0.
  cbn -[Z.of_nat nth Z.to_nat seq].
  eexists. split; [reflexivity |]. split; [reflexivity |].
  intros idx. cbn -[Z.of_nat nth Z.to_nat seq]. unfold mean_at, qsum.
  f_equal. rewrite Nat2Z.id. f_equal.
  transitivity (map (fun t : tensor => data t idx)
                    (map (fun i => nth i (t0 :: rest) t0) (seq 0 (length (t0 :: rest))))).
  - rewrite map_map. apply map_ext. intros i. now rewrite Nat2Z.id.
  - now rewrite map_nth_seq.
Qed.

End Aggregation.

(* ===================================================================== *)
(** * Label decoding                                                     *)
(* ===================================================================== *)

Section Decoding.

(** C7. On a field with a leading axis and at least three channels the
    decode succeeds, and every voxel of the label map is the result of the
    stated procedure on the voxel's three channel values: threshold at 0.5,
    enhancing = mask 0, necrotic = mask 1 and not enhancing, edema = mask 2
    and not mask 1, output 0 overwritten by 4, then 1, then 2.  In
    particular (0.9, 0.9, 0.9) gives 4, (0.1, 0.9, 0.9) gives 1,
    (0.1, 0.1, 0.9) gives 2 and (0.1, 0.1, 0.1) gives 0. *)
Theorem decode_labels (avg : tensor) (b c : Z) (sp : list Z) :
  shape avg = b :: c :: sp -> 0 < b -> 3 <= c ->
  exists labelmap, decode avg = Ok labelmap /\ shape labelmap = sp /\
    forall idx, length idx = length sp ->
      let p0 := data avg (0 :: 0 :: idx) in
      let p1 := data avg (0 :: 1 :: idx) in
      let p2 := data avg (0 :: 2 :: idx) in
      data labelmap idx = decode_voxel_spec p0 p1 p2 /\
      (p0 = 9 # 10 -> p1 = 9 # 10 -> p2 = 9 # 10 -> data labelmap idx = 4%Q) /\
      (p0 = 1 # 10 -> p1 = 9 # 10 -> p2 = 9 # 10 -> data labelmap idx = 1%Q) /\
      (p0 = 1 # 10 -> p1 = 1 # 10 -> p2 = 9 # 10 -> data labelmap idx = 2%Q) /\
      (p0 = 1 # 10 -> p1 = 1 # 10 -> p2 = 1 # 10 -> data labelmap idx = 0%Q).
Proof.
  intros Hsh Hb Hc. unfold decode.
  destruct (getitem_int avg 0 b _ Hsh) as (avg0 & Havg0 & Hsh0 & Hd0); [lia |].
  rewrite Havg0. cbn -[getitem].
  assert (Hsegs : shape (gt_scalar avg0 (1 # 2)) = c :: sp) by exact Hsh0.
  destruct (getitem_int _ 0 c _ Hsegs) as (et & Het & Hshe & Hde); [lia |].
  destruct (getitem_int _ 1 c _ Hsegs) as (s1 & Hs1 & Hsh1 & Hd1); [lia |].
  destruct (getitem_int _ 2 c _ Hsegs) as (s2 & Hs2 & Hsh2 & Hd2); [lia |].
  rewrite Het. cbn -[getitem]. rewrite Hs1. cbn -[getitem]. rewrite Hs2.
  cbn -[getitem].
  eexists. split; [reflexivity |]. cbn. split; [exact Hshe |].
  intros idx Hlen.
  rewrite (Hde idx Hlen), (Hd1 idx Hlen), (Hd2 idx Hlen). cbn.
  rewrite !Hd0 by (cbn; now rewrite Hlen).
  set (p0 := data avg (0 :: 0 :: idx)).
  set (p1 := data avg (0 :: 1 :: idx)).
  set (p2 := data avg (0 :: 2 :: idx)).
  assert (Hspec : (if Qgtb p2 (1 # 2) && negb (Qgtb p1 (1 # 2)) then 2%Q
                   else if Qgtb p1 (1 # 2) && negb (Qgtb p0 (1 # 2)) then 1%Q
                   else if Qgtb p0 (1 # 2) then 4%Q else 0%Q)
                  = decode_voxel_spec p0 p1 p2).
  { unfold decode_voxel_spec.
    destruct (Qgtb p0 (1 # 2)), (Qgtb p1 (1 # 2)), (Qgtb p2 (1 # 2)); reflexivity. }
  rewrite Hspec. split; [reflexivity |].
  repeat split; intros -> -> ->; reflexivity.
Qed.

Lemma decode_labels_witness :
  exists labelmap,
    decode (Sample.const_tensor canonical_shape (9 # 10)) = Ok labelmap /\
    shape labelmap = [155; 240; 240] /\
    forall idx, length idx = length [155; 240; 240] ->
      let p0 := data (Sample.const_tensor canonical_shape (9 # 10)) (0 :: 0 :: idx) in
      let p1 := data (Sample.const_tensor canonical_shape (9 # 10)) (0 :: 1 :: idx) in
      let p2 := data (Sample.const_tensor canonical_shape (9 # 10)) (0 :: 2 :: idx) in
      data labelmap idx = decode_voxel_spec p0 p1 p2 /\
      (p0 = 9 # 10 -> p1 = 9 # 10 -> p2 = 9 # 10 -> data labelmap idx = 4%Q) /\
      (p0 = 1 # 10 -> p1 = 9 # 10 -> p2 = 9 # 10 -> data labelmap idx = 1%Q) /\
      (p0 = 1 # 10 -> p1 = 1 # 10 -> p2 = 9 # 10 -> data labelmap idx = 2%Q) /\
      (p0 = 1 # 10 -> p1 = 1 # 10 -> p2 = 1 # 10 -> data labelmap idx = 0%Q).
Proof.
  apply (decode_labels (Sample.const_tensor canonical_shape (9 # 10)) 1 3 [155; 240; 240]);
    [reflexivity | lia | lia].
Defined.

End Decoding.

(* ===================================================================== *)
(** * Reasoning about the event log                                      *)
(* ===================================================================== *)

Section HoareRules.
Context {A B : Type}.

Lemma hoare_ret (P : list event -> Prop) (E : list event -> Prop) (a : A) :
  hoare P (mret a) (fun _ => P) E.
Proof. intros log HP. exact HP. Qed.

Lemma hoare_bind (P : list event -> Prop) (c : M A) (Q : A -> list event -> Prop)
    (k : A -> M B) (R : B -> list event -> Prop) (E : list event -> Prop) :
  hoare P c Q E -> (forall a, hoare (Q a) (k a) R E) ->
  hoare P (c ≫= k) R E.
Proof.
  intros Hc Hk log HP. specialize (Hc log HP).
  unfold mbind, M_bind, bind_M. destruct (c log) as [[a | e] log'].
  - apply (Hk a log' Hc).
  - exact Hc.
Qed.

Lemma hoare_lift (P E : list event -> Prop) (r : result A) :
  (forall log, P log -> E log) -> hoare P (lift r) (fun _ => P) E.
Proof. intros HPE log HP. unfold lift. destruct r; auto. Qed.

Lemma hoare_conseq (P P' : list event -> Prop) (c : M A) (Q Q' : A -> list event -> Prop)
    (E E' : list event -> Prop) :
  hoare P' c Q' E' -> (forall log, P log -> P' log) ->
  (forall a log, Q' a log -> Q a log) -> (forall log, E' log -> E log) ->
  hoare P c Q E.
Proof.
  intros Hc HP HQ HE log Hlog. specialize (Hc log (HP log Hlog)).
  destruct (c log) as [[a | e] log']; auto.
Qed.

End HoareRules.

Lemma hoare_emit (P Q : list event -> Prop) (E : list event -> Prop) (e : event) :
  (forall log, P log -> Q (log ++ [e])) -> hoare P (emit e) (fun _ => Q) E.
Proof. intros Hstep log HP. exact (Hstep log HP). Qed.

(* ===================================================================== *)
(** * Accelerator residency                                              *)
(* ===================================================================== *)

Section Residency.

Lemma resident_app (g : gset nat) (l1 l2 : list event) :
  resident g (l1 ++ l2) = resident (resident g l1) l2.
Proof. apply fold_left_app. Qed.

Lemma disciplined_app (g : gset nat) (l1 l2 : list event) :
  disciplined g (l1 ++ l2) <-> disciplined g l1 /\ disciplined (resident g l1) l2.
Proof.
  revert g. induction l1 as [| e l1 IH]; intros g; cbn.
  - tauto.
  - rewrite IH. tauto.
Qed.

Lemma gpu_step_size (g : gset nat) (e : event) :
  (size g <= 1)%nat -> allowed g e -> (size (gpu_step g e) <= 1)%nat.
Proof.
  intros Hg Ha. destruct e as [n | i | i | i | d r l]; cbn in *; try exact Hg.
  - subst g. rewrite (right_id_L ∅ (∪)), size_singleton. lia.
  - etransitivity; [| exact Hg]. apply subseteq_size.
    apply subseteq_difference_l. reflexivity.
Qed.

Lemma disciplined_prefix_size (log pre post : list event) (g : gset nat) :
  (size g <= 1)%nat -> disciplined g log -> log = pre ++ post ->
  (size (resident g pre) <= 1)%nat.
Proof.
  revert g log. induction pre as [| e pre IH]; intros g log Hg Hd ->; cbn.
  - exact Hg.
  - cbn in Hd. destruct Hd as [Ha Hd].
    apply (IH (gpu_step g e) (pre ++ post)); auto using gpu_step_size.
Qed.

Lemma disciplined_claims (log : list event) :
  disciplined ∅ log ->
  at_most_one_resident log /\ forward_on_resident log /\ load_on_free log.
Proof.
  intros Hd. split; [| split].
  - intros pre post Hlog.
    apply (disciplined_prefix_size log pre post ∅); [| exact Hd | exact Hlog].
    rewrite size_empty. lia.
  - intros pre post i ->. apply disciplined_app in Hd as [_ Hd]. apply Hd.
  - intros pre post i ->. apply disciplined_app in Hd as [_ Hd]. apply Hd.
Qed.

Lemma idle_emit_neutral (e : event) (log : list event) :
  allowed ∅ e -> gpu_step ∅ e = ∅ -> idle log -> idle (log ++ [e]).
Proof.
  intros Ha Hs [Hd Hr]. split.
  - apply disciplined_app. split; [exact Hd |]. rewrite Hr. cbn. tauto.
  - rewrite resident_app, Hr. cbn. exact Hs.
Qed.

Lemma idle_load (i : nat) (log : list event) :
  idle log -> busy i (log ++ [EvModelToGpu i]).
Proof.
  intros [Hd Hr]. split.
  - apply disciplined_app. split; [exact Hd |]. rewrite Hr. cbn. tauto.
  - rewrite resident_app, Hr. cbn. apply (right_id_L ∅ (∪)).
Qed.

Lemma busy_forward (i : nat) (log : list event) :
  busy i log -> busy i (log ++ [EvForward i]).
Proof.
  intros [Hd Hr]. split.
  - apply disciplined_app. split; [exact Hd |]. rewrite Hr. cbn. tauto.
  - rewrite resident_app, Hr. reflexivity.
Qed.

Lemma busy_unload (i : nat) (log : list event) :
  busy i log -> idle (log ++ [EvModelToCpu i]).
Proof.
  intros [Hd Hr]. split.
  - apply disciplined_app. split; [exact Hd |]. rewrite Hr. cbn. tauto.
  - rewrite resident_app, Hr. cbn. apply difference_diag_L.
Qed.

End Residency.

Section Discipline.
Context {ext : Externals}.

Lemma idle_disciplined (log : list event) : idle log -> disciplined ∅ log.
Proof. intros [Hd _]. exact Hd. Qed.

Lemma busy_disciplined (i : nat) (log : list event) : busy i log -> disciplined ∅ log.
Proof. intros [Hd _]. exact Hd. Qed.

Ltac hlift :=
  eapply hoare_bind;
  [ apply hoare_lift; first [ apply busy_disciplined | apply idle_disciplined ] | intros ? ].

Lemma select_inputs_idle (normalisation : option string) (p : prepared) (fr : frame) :
  hoare idle (select_inputs normalisation p fr) (fun _ => idle) (disciplined ∅).
Proof.
  unfold select_inputs.
  destruct (norm_eqb normalisation (last_norm fr)); [apply hoare_ret |].
  destruct (norm_eqb normalisation (Some "minmax"%string)).
  { eapply hoare_bind; [| intros ?; apply hoare_ret].
    apply hoare_emit. intros log Hidle.
    apply idle_emit_neutral; [exact I | reflexivity | exact Hidle]. }
  destruct (norm_eqb normalisation (Some "zscore"%string)).
  { eapply hoare_bind; [| intros ?; apply hoare_ret].
    apply hoare_emit. intros log Hidle.
    apply idle_emit_neutral; [exact I | reflexivity | exact Hidle]. }
  apply hoare_ret.
Qed.

Lemma predict_busy (a : args) (i : nat) (m : model) (fr : frame) (model_preds : list tensor) :
  hoare (busy i) (predict a i m fr model_preds) (fun _ => busy i) (disciplined ∅).
Proof.
  unfold predict. destruct (tta a); cbv zeta.
  - hlift.
    eapply hoare_bind; [apply hoare_emit, busy_forward | intros ?; cbv beta].
    hlift. apply hoare_ret.
  - hlift.
    eapply hoare_bind; [apply hoare_emit, busy_forward | intros ?; cbv beta].
    hlift. hlift. apply hoare_ret.
Qed.

Lemma run_model_idle (a : args) (p : prepared) (i : nat) (m : model)
    (normalisation : option string) (fr : frame) (model_preds : list tensor) :
  hoare idle (run_model a p i m normalisation fr model_preds) (fun _ => idle) (disciplined ∅).
Proof.
  unfold run_model.
  eapply hoare_bind; [apply select_inputs_idle | intros fr'].
  eapply hoare_bind; [apply hoare_emit, (idle_load i) | intros ?; cbv beta].
  eapply hoare_bind; [apply predict_busy | intros [pre_segs preds]].
  cbv beta iota.
  hlift. hlift.
  eapply hoare_bind; [apply hoare_emit, busy_unload | intros ?; cbv beta].
  apply hoare_ret.
Qed.

Lemma run_models_idle (a : args) (p : prepared) (ms : list (model * option string)) :
  forall (i : nat) (fr : frame) (model_preds : list tensor),
    hoare idle (run_models a p i ms fr model_preds) (fun _ => idle) (disciplined ∅).
Proof.
  induction ms as [| [m normalisation] ms IH]; intros i fr model_preds; cbn [run_models].
  - apply hoare_ret.
  - eapply hoare_bind; [apply run_model_idle | intros [fr' preds]].
    apply IH.
Qed.

Lemma process_case_idle (a : args) (ms : list (model * option string)) (c : batch * batch) (fr : frame) :
  hoare idle (process_case a ms c fr) (fun _ => idle) (disciplined ∅).
Proof.
  unfold process_case. destruct c as [batch_minmax batch_zscore]. cbv zeta.
  eapply hoare_bind; [apply run_models_idle | intros [fr' preds]].
  cbv beta iota.
  eapply hoare_bind; [apply hoare_lift, idle_disciplined | intros pre_segs].
  eapply hoare_bind; [apply hoare_lift, idle_disciplined | intros labelmap].
  eapply hoare_bind; [apply hoare_lift, idle_disciplined | intros ?; cbv beta].
  eapply hoare_bind; [apply hoare_emit | intros ?; apply hoare_ret].
  intros log Hidle. apply idle_emit_neutral; [exact I | reflexivity | exact Hidle].
Qed.

Lemma process_cases_idle (a : args) (ms : list (model * option string)) (cs : list (batch * batch)) :
  forall fr : frame, hoare idle (process_cases a ms cs fr) (fun _ => idle) (disciplined ∅).
Proof.
  induction cs as [| c cs IH]; intros fr; cbn [process_cases].
  - apply hoare_ret.
  - eapply hoare_bind; [apply process_case_idle | intros fr']. apply IH.
Qed.

(** C8. Starting with no model on the accelerator, whatever the cases, the
    size of the ensemble and the outcome of the run, at
    every instant at most one model's weights are resident on the
    accelerator; every forward computation runs while its own model, and
    only it, is resident; and a model is moved on only when no model is
    resident, the previous one having been moved off. *)
Theorem gpu_discipline (data_loaders : list batch * list batch) (models : list model)
    (normalisations : list (option string)) (a : args) :
  let log := snd (generate_segmentations data_loaders models normalisations a []) in
  at_most_one_resident log /\ forward_on_resident log /\ load_on_free log.
Proof.
  intros log. apply disciplined_claims. subst log. unfold generate_segmentations.
  pose proof (process_cases_idle a (zip models normalisations)
                (zip (fst data_loaders) (snd data_loaders)) empty_frame []) as Hrun.
  destruct (process_cases _ _ _ _ _) as [[fr | e] log'].
  - apply idle_disciplined, Hrun. split; reflexivity.
  - apply Hrun. split; reflexivity.
Qed.

End Discipline.

(* ===================================================================== *)
(** * Input selection                                                    *)
(* ===================================================================== *)

Section InputSelection.
Context {ext : Externals}.

(** A variant other than minmax and zscore binds nothing and transfers
    nothing. *)
Lemma select_inputs_other (normalisation : option string) (p : prepared) (fr : frame)
    (log : list event) :
  norm_eqb normalisation (Some "minmax"%string) = false ->
  norm_eqb normalisation (Some "zscore"%string) = false ->
  select_inputs normalisation p fr log = (Ok fr, log).
Proof.
  intros Hmm Hzs. unfold select_inputs. rewrite Hmm, Hzs.
  now destruct (norm_eqb normalisation (last_norm fr)).
Qed.

Lemma predict_unbound (a : args) (i : nat) (m : model) (fr : frame)
    (model_preds : list tensor) (log : list event) :
  inputs fr = None ->
  predict a i m fr model_preds log = (Raise (UnboundLocalError "inputs"), log).
Proof.
  intros Hin. unfold predict. rewrite Hin. now destruct (tta a).
Qed.

(** C10. When the first model declares a variant other than minmax and
    zscore, the input selection binds nothing (it returns the frame as it
    got it and transfers nothing), and the first case fails with the
    unbound-variable error on [inputs]: the only event of the run is the
    model's move to the accelerator, so no forward computation has run. *)
Theorem unknown_first_variant_unbound (bm bz : batch) (bms bzs : list batch)
    (m : model) (ms : list model) (n : option string) (ns : list (option string))
    (a : args) :
  norm_eqb n (Some "minmax"%string) = false ->
  norm_eqb n (Some "zscore"%string) = false ->
  (forall p fr log, select_inputs n p fr log = (Ok fr, log)) /\
  generate_segmentations (bm :: bms, bz :: bzs) (m :: ms) (n :: ns) a [] =
    (Raise (UnboundLocalError "inputs"), [EvModelToGpu 0]).
Proof.
  intros Hmm Hzs. split; [intros; now apply select_inputs_other |].
  unfold generate_segmentations. cbn [fst snd zip zip_with process_cases].
  unfold process_case, mbind at 1, M_bind, bind_M.
  cbv zeta. cbn [run_models]. unfold run_model.
  unfold mbind, M_bind, bind_M.
  rewrite select_inputs_other by assumption.
  cbn [emit app]. rewrite predict_unbound by reflexivity.
  reflexivity.
Qed.

End InputSelection.

Lemma unknown_first_variant_unbound_witness :
  (forall p fr log,
      select_inputs (Some "standard"%string) p fr log = (Ok fr, log)) /\
  generate_segmentations (ext := Sample.externals)
      ([Sample.good_batch "p1"], [Sample.good_batch "p1"])
      [Sample.enhancing_model] [Some "standard"%string] (Sample.sample_args false) [] =
    (Raise (UnboundLocalError "inputs"), [EvModelToGpu 0]).
Proof.
  apply (unknown_first_variant_unbound (ext := Sample.externals)); reflexivity.
Defined.

(* ===================================================================== *)
(** * Errors in the loop over the cases                                  *)
(* ===================================================================== *)

Section CaseErrors.
Context {ext : Externals}.

Lemma process_cases_app (a : args) (ms : list (model * option string))
    (cs1 cs2 : list (batch * batch)) :
  forall (fr : frame) (log : list event),
    process_cases a ms (cs1 ++ cs2) fr log =
      match process_cases a ms cs1 fr log with
      | (Ok fr', log') => process_cases a ms cs2 fr' log'
      | (Raise e, log') => (Raise e, log')
      end.
Proof.
  induction cs1 as [| c cs1 IH]; intros fr log; cbn [app process_cases].
  - reflexivity.
  - unfold mbind, M_bind, bind_M.
    destruct (process_case a ms c fr log) as [[fr' | e] log']; [apply IH | reflexivity].
Qed.

(** C2, as the code has it.  No error is caught at the case boundary: when
    the cases before one have been processed and that case raises, the run
    ends with that error and with the log as the failing case left it, so
    no later case is processed. *)
Theorem case_error_terminates_run (data_loaders : list batch * list batch)
    (models : list model) (normalisations : list (option string)) (a : args)
    (cs1 cs2 : list (batch * batch)) (c : batch * batch)
    (fr1 : frame) (log1 log2 : list event) (e : exn) :
  zip (fst data_loaders) (snd data_loaders) = cs1 ++ c :: cs2 ->
  process_cases a (zip models normalisations) cs1 empty_frame [] = (Ok fr1, log1) ->
  process_case a (zip models normalisations) c fr1 log1 = (Raise e, log2) ->
  generate_segmentations data_loaders models normalisations a [] = (Raise e, log2).
Proof.
  intros Hcs Hpre Hc. unfold generate_segmentations.
  rewrite Hcs, process_cases_app, Hpre. cbn [process_cases].
  unfold mbind, M_bind, bind_M. now rewrite Hc.
Qed.

End CaseErrors.

Lemma case_error_terminates_run_witness :
  generate_segmentations (ext := Sample.externals)
      (Sample.loaders [Sample.short_window_batch "p1"; Sample.good_batch "p2"])
      [Sample.enhancing_model] [Some "minmax"%string] (Sample.sample_args false) [] =
    (Raise ShapeMismatch, [EvInputToGpu "minmax"; EvModelToGpu 0; EvForward 0]).
Proof.
  apply (case_error_terminates_run (ext := Sample.externals) _ _ _ _
           [] [(Sample.good_batch "p2", Sample.good_batch "p2")]
           (Sample.short_window_batch "p1", Sample.short_window_batch "p1")
           empty_frame []).
  - reflexivity.
  - reflexivity.
  - vm_compute. reflexivity.
Defined.

(** C2 does not hold as stated.  The first case raises the shape error; the
    error is the outcome of the whole run and nothing is written for the
    second case, which on its own is processed and written. *)
Lemma case_error_not_caught :
  let run := generate_segmentations (ext := Sample.externals)
      (Sample.loaders [Sample.short_window_batch "p1"; Sample.good_batch "p2"])
      [Sample.enhancing_model] [Some "minmax"%string] (Sample.sample_args false) [] in
  let alone := generate_segmentations (ext := Sample.externals)
      (Sample.loaders [Sample.good_batch "p2"])
      [Sample.enhancing_model] [Some "minmax"%string] (Sample.sample_args false) [] in
  fst run = Raise ShapeMismatch /\
  written (snd run) = [] /\
  is_ok (fst alone) = true /\
  written (snd alone) = ["preds/run/p2.nii.gz"%string].
Proof.
  cbv zeta. repeat split; vm_compute; reflexivity.
Qed.

(* ===================================================================== *)
(** * What the model loop accumulates and transfers                      *)
(* ===================================================================== *)

Section ModelLoop.
Context {ext : Externals}.

(** Lines 158-167: what the prediction step adds to the accumulated list. *)
Lemma predict_appends (a : args) (i : nat) (m : model) (fr : frame)
    (model_preds preds' : list tensor) (pre_segs : tensor) (log log' : list event) :
  predict a i m fr model_preds log = (Ok (pre_segs, preds'), log') ->
  preds' = if tta a then model_preds ++ [pre_segs] else model_preds.
Proof.
  unfold predict, mbind, M_bind, bind_M, lift, emit. destruct (tta a); cbv zeta.
  - destruct (read_var "inputs" (inputs fr)) as [x |]; [| discriminate].
    destruct (apply_simple_tta m x true) as [t |]; [| discriminate].
    now intros [= <- <- _].
  - destruct (read_var "inputs" (inputs fr)) as [x |]; [| discriminate].
    destruct (forward m x) as [o |]; [| discriminate].
    destruct (if deep_supervision m then unpack_pair o else expect_tensor o);
      [| discriminate].
    now intros [= _ <- _].
Qed.

(** Lines 141-179: one pass of the loop appends the reconstructed field,
    and before it, when augmentation is requested, the raw augmented
    prediction. *)
Lemma run_model_appends (a : args) (p : prepared) (i : nat) (m : model)
    (normalisation : option string) (fr fr' : frame) (model_preds preds' : list tensor)
    (log log' : list event) :
  run_model a p i m normalisation fr model_preds log = (Ok (fr', preds'), log') ->
  exists pre_segs segs : tensor,
    shape segs = canonical_shape /\
    preds' = if tta a then model_preds ++ [pre_segs; segs] else model_preds ++ [segs].
Proof.
  unfold run_model, mbind, M_bind, bind_M, lift.
  destruct (select_inputs normalisation p fr log) as [[fr1 | e] log1]; [| discriminate].
  cbn [emit].
  destruct (predict a i m fr1 model_preds _) as [[[pre_segs preds1] | e] log2] eqn:Hp;
    [| discriminate].
  apply predict_appends in Hp.
  destruct (remove_pads_var pre_segs (pads fr1)) as [tr |]; [| discriminate].
  destruct (place_var tr (crops_idx fr1)) as [segs |] eqn:Hpl; [| discriminate].
  intros [= _ <- _]. exists pre_segs, segs.
  split; [apply (place_var_shape _ _ _ Hpl) |].
  subst preds1. destruct (tta a); [now rewrite <- app_assoc | reflexivity].
Qed.

(** Without augmentation the loop accumulates exactly one full-volume field
    per ensemble member; with augmentation it accumulates two tensors per
    member. *)
Lemma run_models_accumulates (a : args) (p : prepared) (ms : list (model * option string)) :
  forall (i : nat) (fr fr' : frame) (model_preds preds' : list tensor)
         (log log' : list event),
    run_models a p i ms fr model_preds log = (Ok (fr', preds'), log') ->
    exists new : list tensor, preds' = model_preds ++ new /\
      length new = (if tta a then 2 * length ms else length ms)%nat /\
      (tta a = false -> Forall (fun t => shape t = canonical_shape) new).
Proof.
  induction ms as [| [m normalisation] ms IH];
    intros i fr fr' model_preds preds' log log'; cbn [run_models].
  - intros [= _ <- _]. exists []. rewrite app_nil_r.
    split; [reflexivity |]. split; [now destruct (tta a) | constructor].
  - unfold mbind, M_bind, bind_M.
    destruct (run_model a p i m normalisation fr model_preds log)
      as [[[fr1 preds1] | e] log1] eqn:Hm; [| discriminate].
    intros Hrest. apply IH in Hrest as (new & -> & Hlen & Hshape).
    apply run_model_appends in Hm as (pre_segs & segs & Hsegs & ->).
    destruct (tta a).
    + exists ([pre_segs; segs] ++ new). rewrite <- app_assoc.
      split; [reflexivity |]. split; [| discriminate].
      cbn [length app]. rewrite Hlen. cbn [length]. lia.
    + exists ([segs] ++ new). rewrite <- app_assoc.
      split; [reflexivity |]. split; [cbn [length app]; now rewrite Hlen |].
      intros _. constructor; [exact Hsegs | now apply Hshape].
Qed.

(** Line 138 leaves [last_norm] at [None] and no pass of the loop changes
    it, so a model declaring minmax is sent a fresh transfer. *)
Lemma select_inputs_minmax (p : prepared) (fr : frame) (log : list event) :
  last_norm fr = None ->
  select_inputs (Some "minmax"%string) p fr log =
    (Ok (mk_frame (Some (inputs_minmax p)) (Some (pads_minmax p))
                  (Some (crops_idx_minmax p)) None),
     log ++ [EvInputToGpu "minmax"]).
Proof. intros Hn. unfold select_inputs. rewrite Hn. reflexivity. Qed.

Lemma select_inputs_last_norm (normalisation : option string) (p : prepared)
    (fr fr' : frame) (log log' : list event) :
  select_inputs normalisation p fr log = (Ok fr', log') -> last_norm fr' = last_norm fr.
Proof.
  unfold select_inputs.
  destruct (norm_eqb normalisation (last_norm fr)); [now intros [= <- _] |].
  destruct (norm_eqb normalisation (Some "minmax"%string)); [now intros [= <- _] |].
  destruct (norm_eqb normalisation (Some "zscore"%string)); now intros [= <- _].
Qed.

End ModelLoop.

(* ===================================================================== *)
(** * Transfers of the input                                             *)
(* ===================================================================== *)

Section Transfers.
Context {ext : Externals}.

Lemma transfers_snoc (log : list event) (e : event) :
  transfers (log ++ [e]) = (transfers log + if is_input_transfer e then 1 else 0)%nat.
Proof.
  unfold transfers. rewrite List.filter_app, length_app. cbn.
  destruct (is_input_transfer e); reflexivity.
Qed.

Ltac hkeep :=
  eapply hoare_bind; [ apply hoare_lift; intros; exact I | intros ?; cbv beta ].

Ltac hsilent :=
  eapply hoare_bind;
  [ eapply (hoare_emit _ (transferred _)); unfold transferred; intros ? ?;
    rewrite transfers_snoc; cbn [is_input_transfer]; rewrite Nat.add_0_r; eassumption
  | intros ?; cbv beta ].

Lemma select_inputs_transfers (normalisation : option string) (p : prepared) (fr : frame) (k : nat) :
  last_norm fr = None ->
  hoare (transferred k) (select_inputs normalisation p fr)
        (fun fr' log => last_norm fr' = None /\
           transfers log = (k + if needs_transfer normalisation then 1 else 0)%nat)
        (fun _ => True).
Proof.
  intros Hn log Hk. unfold transferred in Hk. unfold select_inputs. rewrite Hn.
  destruct (norm_eqb normalisation None) eqn:Hnone.
  { apply bool_decide_eq_true in Hnone. subst normalisation.
    change (needs_transfer None) with false. cbn.
    split; [exact Hn | lia]. }
  unfold needs_transfer.
  destruct (norm_eqb normalisation (Some "minmax"%string)); cbn.
  { split; [reflexivity |]. rewrite transfers_snoc. cbn. lia. }
  destruct (norm_eqb normalisation (Some "zscore"%string)); cbn.
  { split; [reflexivity |]. rewrite transfers_snoc. cbn. lia. }
  split; [exact Hn | lia].
Qed.

Lemma predict_transfers (a : args) (i : nat) (m : model) (fr : frame)
    (model_preds : list tensor) (k : nat) :
  hoare (transferred k) (predict a i m fr model_preds)
        (fun _ => transferred k) (fun _ => True).
Proof.
  unfold predict. destruct (tta a); cbv zeta.
  - hkeep. hsilent. hkeep. apply hoare_ret.
  - hkeep. hsilent. hkeep. hkeep. apply hoare_ret.
Qed.

Lemma run_model_transfers (a : args) (p : prepared) (i : nat) (m : model)
    (normalisation : option string) (fr : frame) (model_preds : list tensor) (k : nat) :
  last_norm fr = None ->
  hoare (transferred k) (run_model a p i m normalisation fr model_preds)
        (fun r log => last_norm r.1 = None /\
           transfers log = (k + if needs_transfer normalisation then 1 else 0)%nat)
        (fun _ => True).
Proof.
  intros Hn. unfold run_model.
  eapply hoare_bind; [apply (select_inputs_transfers _ _ _ k Hn) | intros fr1; cbv beta].
  set (k1 := (k + if needs_transfer normalisation then 1 else 0)%nat).
  apply (hoare_conseq _ (fun log => last_norm fr1 = None /\ transferred k1 log) _ _
           (fun r log => last_norm r.1 = None /\ transfers log = k1) _ (fun _ => True));
    [| tauto | tauto | tauto].
  intros log [Hn1 Hk1]. revert log Hk1.
  change (hoare (transferred k1)
            (emit (EvModelToGpu i) ≫= fun _ =>
             predict a i m fr1 model_preds ≫= fun '(pre_segs, model_preds0) =>
             lift (remove_pads_var pre_segs (pads fr1)) ≫= fun pre_segs0 =>
             lift (place_var pre_segs0 (crops_idx fr1)) ≫= fun segs =>
             emit (EvModelToCpu i) ≫= fun _ => mret (fr1, model_preds0 ++ [segs]))
            (fun r log => last_norm r.1 = None /\ transfers log = k1) (fun _ => True)).
  hsilent.
  eapply hoare_bind; [apply predict_transfers | intros [pre_segs preds]; cbv beta iota].
  hkeep. hkeep. hsilent.
  intros log Hk1. cbn. split; [exact Hn1 | exact Hk1].
Qed.

Lemma run_models_transfers (a : args) (p : prepared) (ms : list (model * option string)) :
  forall (i : nat) (fr : frame) (model_preds : list tensor) (k : nat),
    last_norm fr = None ->
    hoare (transferred k) (run_models a p i ms fr model_preds)
          (fun r log => last_norm r.1 = None /\
             transferred (k + transferring_members ms) log)
          (fun _ => True).
Proof.
  induction ms as [| [m normalisation] ms IH]; intros i fr model_preds k Hn;
    cbn [run_models].
  - intros log Hk. cbn. split; [exact Hn |].
    unfold transferring_members, transferred in *. cbn. lia.
  - eapply hoare_bind; [apply (run_model_transfers _ _ _ _ _ _ _ k Hn) |].
    intros [fr1 preds1]. cbv beta iota.
    intros log [Hn1 Hk1]. cbn [fst] in Hn1.
    pose proof (IH (S i) fr1 preds1 _ Hn1 log Hk1) as Hrest.
    destruct (run_models a p (S i) ms fr1 preds1 log) as [[r | e] log']; [| exact I].
    destruct Hrest as [Hnr Hkr]. split; [exact Hnr |].
    unfold transferring_members, transferred in *. cbn [List.filter snd].
    destruct (needs_transfer normalisation); cbn [length]; lia.
Qed.

(** In every case that is processed to its end, each member declaring
    minmax or zscore is sent its own transfer of the input, whatever the
    variant of the member before it. *)
Lemma process_case_transfers (a : args) (ms : list (model * option string))
    (c : batch * batch) (fr fr' : frame) (log log' : list event) :
  process_case a ms c fr log = (Ok fr', log') ->
  transfers log' = (transfers log + transferring_members ms)%nat.
Proof.
  intros Hrun.
  assert (Hh : hoare (transferred (transfers log)) (process_case a ms c fr)
                 (fun _ => transferred (transfers log + transferring_members ms))
                 (fun _ => True)).
  { unfold process_case. destruct c as [batch_minmax batch_zscore]. cbv zeta.
    eapply hoare_bind; [apply run_models_transfers; reflexivity |].
    intros [fr1 preds]. cbv beta iota.
    apply (hoare_conseq _ (transferred (transfers log + transferring_members ms)) _ _
             (fun _ => transferred (transfers log + transferring_members ms)) _
             (fun _ => True)); [| tauto | tauto | tauto].
    hkeep. hkeep. hkeep. hsilent. apply hoare_ret. }
  specialize (Hh log eq_refl). now rewrite Hrun in Hh.
Qed.

End Transfers.

Section WithoutAugmentation.
Context {ext : Externals}.

(** On the path without augmentation the loop accumulates exactly one
    full-volume field per ensemble member, and line 181 reduces them to
    their elementwise arithmetic mean. *)
Lemma accumulated_mean_without_tta (a : args) (p : prepared)
    (ms : list (model * option string)) (fr fr' : frame) (preds : list tensor)
    (log log' : list event) :
  tta a = false -> ms <> [] ->
  run_models a p 0 ms fr [] log = (Ok (fr', preds), log') ->
  length preds = length ms /\
  Forall (fun t => shape t = canonical_shape) preds /\
  exists r, ensemble_mean preds = Ok r /\ shape r = canonical_shape /\
    forall idx, data r idx = mean_at preds idx.
Proof.
  intros Htta Hms Hrun.
  apply run_models_accumulates in Hrun as (new & -> & Hlen & Hshape).
  rewrite Htta in Hlen. specialize (Hshape Htta). cbn [app].
  split; [exact Hlen |]. split; [exact Hshape |].
  destruct new as [| t0 rest]; [destruct ms; [congruence | discriminate] |].
  apply Forall_cons in Hshape as [Ht0 Hrest].
  destruct (ensemble_mean_is_mean t0 rest) as (r & Hr & Hrsh & Hrd).
  { eapply Forall_impl; [exact Hrest |]. cbn. intros t Ht. congruence. }
  exists r. split; [exact Hr |]. split; [congruence | exact Hrd].
Qed.

End WithoutAugmentation.

(** C1 fails with augmentation requested.  For one member the loop
    accumulates two tensors, the raw augmented prediction of the crop and
    the reconstructed field; their shapes differ, line 181 raises, and
    nothing is written. *)
Lemma tta_accumulates_two_per_member :
  let a := Sample.sample_args true in
  let c := Sample.good_batch "p1" in
  let loop := run_models (ext := Sample.externals) a
                (prepare (ext := Sample.externals) c c) 0
                [(Sample.enhancing_model, Some "minmax"%string)] empty_frame [] [] in
  let run := generate_segmentations (ext := Sample.externals) (Sample.loaders [c])
               [Sample.enhancing_model] [Some "minmax"%string] a [] in
  match fst loop with
  | Ok (_, model_preds) => map shape model_preds
  | Raise _ => []
  end = [[1; 3; 2; 2; 2]; canonical_shape] /\
  fst run = Raise ShapeMismatch /\
  written (snd run) = [].
Proof.
  cbv zeta. repeat split; vm_compute; reflexivity.
Qed.

(** C3 fails on two consecutive members of one variant: the input is
    transferred to the accelerator again for the second member. *)
Lemma same_variant_transferred_again :
  let run := generate_segmentations (ext := Sample.externals)
               (Sample.loaders [Sample.odd_batch "p1"])
               [Sample.enhancing_model; Sample.enhancing_model]
               [Some "minmax"%string; Some "minmax"%string]
               (Sample.sample_args false) [] in
  is_ok (fst run) = true /\
  firstn 8 (snd run) =
    [EvInputToGpu "minmax"; EvModelToGpu 0; EvForward 0; EvModelToCpu 0;
     EvInputToGpu "minmax"; EvModelToGpu 1; EvForward 1; EvModelToCpu 1] /\
  transfers (snd run) = 2%nat.
Proof.
  cbv zeta. repeat split; vm_compute; reflexivity.
Qed.

(** Errors of the collaborators end the run in the same way: a forward
    computation that fails, and a destination that cannot be written. *)
Lemma collaborator_errors_not_caught :
  let cases := Sample.loaders [Sample.good_batch "p1"; Sample.good_batch "p2"] in
  let failed_forward := generate_segmentations (ext := Sample.externals) cases
      [Sample.failing_model] [Some "minmax"%string] (Sample.sample_args false) [] in
  let failed_write := generate_segmentations (ext := Sample.readonly_externals) cases
      [Sample.enhancing_model] [Some "minmax"%string] (Sample.sample_args false) [] in
  failed_forward = (Raise InferenceError, [EvInputToGpu "minmax"; EvModelToGpu 0; EvForward 0]) /\
  failed_write = (Raise WriteError,
                  [EvInputToGpu "minmax"; EvModelToGpu 0; EvForward 0; EvModelToCpu 0]).
Proof.
  cbv zeta. split; vm_compute; reflexivity.
Qed.

(* ===================================================================== *)
(** * A whole run                                                        *)
(* ===================================================================== *)

(** One case, one model, no augmentation: the volume is written once, with
    label 4 inside the crop window and 0 outside.  With a deep-supervised
    model whose core is not enhancing, and a crop that needs padding, the
    label inside the window is 1. *)
Example whole_run_sample :
  let enhancing := generate_segmentations (ext := Sample.externals)
      (Sample.loaders [Sample.good_batch "p1"])
      [Sample.enhancing_model] [Some "minmax"%string] (Sample.sample_args false) [] in
  let necrotic := generate_segmentations (ext := Sample.externals)
      (Sample.loaders [Sample.odd_batch "p1"])
      [Sample.necrotic_model] [Some "zscore"%string] (Sample.sample_args false) [] in
  written (snd enhancing) = ["preds/run/p1.nii.gz"%string] /\
  labels_written_at (snd enhancing) [10; 20; 30] = [4%Q] /\
  labels_written_at (snd enhancing) [11; 21; 31] = [4%Q] /\
  labels_written_at (snd enhancing) [12; 21; 31] = [0%Q] /\
  labels_written_at (snd necrotic) [12; 21; 31] = [1%Q] /\
  labels_written_at (snd necrotic) [13; 21; 31] = [0%Q].
Proof.
  cbv zeta. repeat split; vm_compute; reflexivity.
Qed.


(* ===================================================================== *)
(** * Further properties of the reconstruction                           *)
(* ===================================================================== *)

Section ReconstructionEdges.

Lemma slice_len_prefix (n m : Z) : 0 <= n -> slice_lo 0 n = 0 /\ slice_len 0 m n = Z.max 0 (clamp m n).
Proof.
  intros Hn. unfold slice_len, slice_hi, slice_lo.
  assert (H0 : clamp 0 n = 0) by (apply clamp_in; lia).
  rewrite H0. split; [reflexivity |].
  unfold clamp. destruct (Z.ltb_spec m 0); lia.
Qed.

Lemma kept_length_slice (n p : Z) : 0 <= n -> slice_len 0 (n - p) n = kept_length n p.
Proof.
  intros Hn. destruct (slice_len_prefix n (n - p) Hn) as [_ ->].
  unfold kept_length, clamp.
  destruct (Z.ltb_spec (n - p) 0), (Z.ltb_spec p 0), (Z.leb_spec p n); lia.
Qed.

(** Lines 169-171 never raise on a five-axis tensor, whatever the pad
    amounts: each spatial axis keeps [kept_length] of its elements, that is
    its length minus the pad within the pad invariant, all of it for a
    negative pad, and a remainder counted from the end of the axis for a pad
    larger than the axis. *)
Theorem remove_pads_any_pads (t : tensor) (b c z y x pz py px : Z) :
  shape t = [b; c; z; y; x] -> 0 <= z -> 0 <= y -> 0 <= x ->
  exists t', remove_pads t (pz, py, px) = Ok t' /\
    shape t' = [b; c; kept_length z pz; kept_length y py; kept_length x px] /\
    forall idx, length idx = 5%nat -> data t' idx = data t idx.
Proof.
  intros Hsh Hz Hy Hx.
  unfold remove_pads, remove_pads_var, pad_bounds, truncate, getitem.
  rewrite !(size_shape t _ _) by (rewrite Hsh; reflexivity).
  cbn. rewrite Hsh. cbn.
  eexists. split; [reflexivity |]. cbn.
  rewrite !kept_length_slice by assumption.
  split; [reflexivity |].
  intros idx Hlen.
  destruct idx as [| ib [| ic [| iz [| iy [| ix [| ? ?]]]]]]; try discriminate.
  rewrite (proj1 (slice_len_prefix z 0 Hz)), (proj1 (slice_len_prefix y 0 Hy)),
    (proj1 (slice_len_prefix x 0 Hx)). reflexivity.
Qed.

Lemma remove_pads_any_pads_witness :
  exists t', remove_pads (Sample.const_tensor [1; 3; 10; 4; 6] 1) (12, -1, 2) = Ok t' /\
    shape t' = [1; 3; kept_length 10 12; kept_length 4 (-1); kept_length 6 2] /\
    forall idx, length idx = 5%nat ->
      data t' idx = data (Sample.const_tensor [1; 3; 10; 4; 6] 1) idx.
Proof.
  apply (remove_pads_any_pads (Sample.const_tensor [1; 3; 10; 4; 6] 1) 1 3 10 4 6 12 (-1) 2);
    [reflexivity | lia | lia | lia].
Defined.

(** A prediction with fewer than five axes makes lines 169-171 raise
    [IndexError]. *)
Theorem remove_pads_few_axes (t : tensor) (pads : pad_spec) :
  (length (shape t) < 5)%nat -> remove_pads t pads = Raise IndexError.
Proof.
  intros Hlen. unfold remove_pads, remove_pads_var, pad_bounds, tensor_size.
  destruct pads as [[pz py] px].
  destruct (shape t) as [| s0 [| s1 [| s2 [| s3 [| s4 rest]]]]]; cbn in Hlen |- *;
    try reflexivity.
  lia.
Qed.

Lemma remove_pads_few_axes_witness :
  remove_pads (Sample.const_tensor [3; 8; 8; 8] 1) (0, 0, 0) = Raise IndexError.
Proof.
  apply (remove_pads_few_axes (Sample.const_tensor [3; 8; 8; 8] 1) (0, 0, 0)).
  simpl. lia.
Defined.

End ReconstructionEdges.


Section Placement.

Ltac eqb_cases :=
  repeat match goal with
         | |- context [Z.eqb ?a ?b] => destruct (Z.eqb a b)
         end.

Lemma expandable_crop_fits (c dz dy dx lz ly lx : Z) :
  expandable [c; dz; dy; dx] [3; lz; ly; lx] =
    axis_fits c 3 && axis_fits dz lz && axis_fits dy ly && axis_fits dx lx.
Proof.
  unfold expandable, axis_fits. cbn -[Z.eqb].
  destruct (Z.eqb_spec c 1) as [-> |]; [destruct (Z.eqb_spec dz 1) as [-> |];
    [destruct (Z.eqb_spec dy 1) as [-> |]; [destruct (Z.eqb_spec dx 1) as [-> |] |] |] |];
    cbn -[Z.eqb]; rewrite ?Z.eqb_refl; change (1 =? 3) with false;
    repeat match goal with
           | Hne : ?a <> 1 |- _ => rewrite ?(proj2 (Z.eqb_neq a 1) Hne); clear Hne
           end;
    eqb_cases; reflexivity.
Qed.

Lemma place_outcome (tr : tensor) (crops : crop_indexes) (b c dz dy dx : Z) :
  shape tr = [b; c; dz; dy; dx] -> 0 < b ->
  if crop_fits c dz dy dx crops
  then exists f, place tr crops = Ok f
  else place tr crops = Raise ShapeMismatch.
Proof.
  intros Hsh Hb. unfold place, place_var.
  destruct (getitem_0 tr b _ Hsh Hb) as (src & Hsrc & Hssh & _).
  rewrite Hsrc. cbn -[expandable]. unfold setitem, crop_subscript.
  cbn -[expandable]. rewrite Hssh, expandable_crop_fits.
  unfold crop_fits.
  destruct (axis_fits c 3 && _ && _ && _); [eexists |]; reflexivity.
Qed.

(** Line 175 on a five-axis prediction: the assignment goes through exactly
    when the crop fits the part of the window that lies in the frame (on
    each axis the lengths agree or the crop has length 1), and raises the
    shape error otherwise. *)
Theorem place_succeeds_iff_fits (tr : tensor) (crops : crop_indexes) (b c dz dy dx : Z) :
  shape tr = [b; c; dz; dy; dx] -> 0 < b ->
  (is_ok (place tr crops) = crop_fits c dz dy dx crops) /\
  (crop_fits c dz dy dx crops = false -> place tr crops = Raise ShapeMismatch).
Proof.
  intros Hsh Hb. pose proof (place_outcome tr crops b c dz dy dx Hsh Hb) as Hout.
  destruct (crop_fits c dz dy dx crops).
  - destruct Hout as [f ->]. split; [reflexivity | discriminate].
  - rewrite Hout. split; reflexivity.
Qed.

Lemma place_succeeds_iff_fits_witness :
  (is_ok (place (Sample.const_tensor [1; 2; 2; 2; 2] 1) ((10, 12), (20, 22), (30, 32))) =
     crop_fits 2 2 2 2 ((10, 12), (20, 22), (30, 32))) /\
  (crop_fits 2 2 2 2 ((10, 12), (20, 22), (30, 32)) = false ->
   place (Sample.const_tensor [1; 2; 2; 2; 2] 1) ((10, 12), (20, 22), (30, 32)) =
     Raise ShapeMismatch).
Proof.
  apply (place_succeeds_iff_fits (Sample.const_tensor [1; 2; 2; 2; 2] 1)
           ((10, 12), (20, 22), (30, 32)) 1 2 2 2 2); [reflexivity | lia].
Defined.

Lemma slice_region_in_window (a b n i : Z) :
  0 <= a -> 0 <= b -> 0 <= n ->
  slice_lo a n <= i < slice_lo a n + slice_len a b n -> a <= i < b.
Proof.
  unfold slice_len, slice_hi, slice_lo, clamp. intros Ha Hb Hn.
  destruct (Z.ltb_spec a 0), (Z.ltb_spec b 0); lia.
Qed.

(** Whatever the prediction, a field that lines 169-175 produce is zero at
    every voxel outside the crop window. *)
Theorem reconstruct_zero_outside (t f : tensor) (pads : pad_spec) (crops : crop_indexes) :
  window_nonneg crops -> reconstruct t pads crops = Ok f ->
  forall c z y x, inside crops z y x = false -> data f [0; c; z; y; x] = 0%Q.
Proof.
  intros Hw. unfold reconstruct.
  destruct (remove_pads t pads) as [tr |]; [| discriminate].
  cbn -[place]. unfold place, place_var.
  destruct (getitem [IInt 0] tr) as [src |]; [| discriminate].
  destruct crops as [[[az bz] [ay by_]] [ax bx]].
  unfold window_nonneg in Hw. cbn in Hw.
  destruct Hw as ([Hz1 Hz2] & [Hy1 Hy2] & [Hx1 Hx2]).
  cbn -[expandable]. unfold setitem, crop_subscript. cbn -[expandable].
  destruct (expandable _ _); [| discriminate].
  intros [= <-] c z y x Hout. cbn. unfold inside in Hout. cbn in Hout.
  pose proof (slice_region_in_window az bz 155 z Hz1 Hz2 ltac:(lia)) as Rz.
  pose proof (slice_region_in_window ay by_ 240 y Hy1 Hy2 ltac:(lia)) as Ry.
  pose proof (slice_region_in_window ax bx 240 x Hx1 Hx2 ltac:(lia)) as Rx.
  destruct ((0 <=? c) && (c <? 0 + 3)); [| reflexivity].
  destruct (Z.leb_spec (slice_lo az 155) z),
           (Z.ltb_spec z (slice_lo az 155 + slice_len az bz 155));
    cbn; try reflexivity.
  destruct (Z.leb_spec (slice_lo ay 240) y),
           (Z.ltb_spec y (slice_lo ay 240 + slice_len ay by_ 240));
    cbn; try reflexivity.
  destruct (Z.leb_spec (slice_lo ax 240) x),
           (Z.ltb_spec x (slice_lo ax 240 + slice_len ax bx 240));
    cbn; try reflexivity.
  exfalso.
  assert (Hin : ((az <=? z) && (z <? bz)) && ((ay <=? y) && (y <? by_)) &&
                ((ax <=? x) && (x <? bx)) = true) by lia.
  congruence.
Qed.

Lemma reconstruct_zero_outside_witness :
  let t := Sample.const_tensor [1; 3; 2; 2; 2] (9 # 10) in
  let crops : crop_indexes := ((10, 12), (20, 22), (30, 32)) in
  exists f, reconstruct t (0, 0, 0) crops = Ok f /\
    forall c z y x, inside crops z y x = false -> data f [0; c; z; y; x] = 0%Q.
Proof.
  intros t crops.
  assert (Hf : exists f, reconstruct t (0, 0, 0) crops = Ok f) by (eexists; reflexivity).
  destruct Hf as [f Hf]. exists f. split; [exact Hf |].
  apply (reconstruct_zero_outside t f (0, 0, 0) crops); [| exact Hf].
  unfold window_nonneg. simpl. lia.
Defined.

(** Round trip: reading the reconstructed field back at the crop window
    returns the prediction without its pads. *)
Theorem reconstruct_read_back (t : tensor) (b : Z) (pads : pad_spec) (crops : crop_indexes) :
  0 < b -> window_in_frame crops ->
  0 <= pads.1.1 -> 0 <= pads.1.2 -> 0 <= pads.2 ->
  shape t = [b; 3; span crops.1.1 + pads.1.1; span crops.1.2 + pads.1.2;
             span crops.2 + pads.2] ->
  exists f g, reconstruct t pads crops = Ok f /\
    getitem (crop_subscript crops) f = Ok g /\
    shape g = [3; span crops.1.1; span crops.1.2; span crops.2] /\
    forall c z y x, 0 <= c < 3 -> 0 <= z < span crops.1.1 ->
      0 <= y < span crops.1.2 -> 0 <= x < span crops.2 ->
      data g [c; z; y; x] = data t [0; c; z; y; x].
Proof.
  intros Hb Hw Hpz Hpy Hpx Hsh.
  destruct (reconstruct_in_window t b pads crops Hb Hw Hpz Hpy Hpx Hsh)
    as (f & Hf & Hfsh & Hfd).
  exists f. unfold getitem. rewrite Hfsh.
  destruct crops as [[[az bz] [ay by_]] [ax bx]].
  unfold window_in_frame, span in *. cbn in Hw, Hfd |- *.
  destruct Hw as ([Hz1 Hz2] & [Hy1 Hy2] & [Hx1 Hx2]).
  rewrite !slice_len_in, !slice_lo_in by lia.
  eexists. split; [exact Hf |]. split; [reflexivity |]. cbn.
  split; [reflexivity |].
  intros c z y x Hc Hz Hy Hx. rewrite (Hfd c _ _ _ Hc).
  unfold inside. cbn.
  replace (((az <=? az + z) && (az + z <? bz)) && ((ay <=? ay + y) && (ay + y <? by_)) &&
           ((ax <=? ax + x) && (ax + x <? bx))) with true by lia.
  f_equal. f_equal. f_equal. f_equal; [lia | f_equal; [lia | f_equal; lia]].
Qed.

Lemma reconstruct_read_back_witness :
  let t := Sample.const_tensor [1; 3; 3; 2; 2] (9 # 10) in
  let crops : crop_indexes := ((10, 12), (20, 22), (30, 32)) in
  exists f g, reconstruct t (1, 0, 0) crops = Ok f /\
    getitem (crop_subscript crops) f = Ok g /\
    shape g = [3; span crops.1.1; span crops.1.2; span crops.2] /\
    forall c z y x, 0 <= c < 3 -> 0 <= z < span crops.1.1 ->
      0 <= y < span crops.1.2 -> 0 <= x < span crops.2 ->
      data g [c; z; y; x] = data t [0; c; z; y; x].
Proof.
  intros t crops.
  apply (reconstruct_read_back t 1 (1, 0, 0) crops);
    [lia | unfold window_in_frame; simpl; lia | simpl; lia | simpl; lia | simpl; lia
    | reflexivity].
Defined.

(** A window that reaches past the end of the canonical frame is clipped to
    the frame by the slice, so a crop of the window's own size no longer
    fits and the assignment raises the shape error, unless the window is a
    single voxel wide on that axis. *)
Theorem place_window_past_frame (tr : tensor) (crops : crop_indexes) (b c dz dy dx : Z) :
  shape tr = [b; c; dz; dy; dx] -> 0 < b ->
  window_nonneg crops ->
  dz = span crops.1.1 -> dy = span crops.1.2 -> dx = span crops.2 ->
  (155 < crops.1.1.2 /\ 2 <= dz) \/ (240 < crops.1.2.2 /\ 2 <= dy) \/
  (240 < crops.2.2 /\ 2 <= dx) ->
  place tr crops = Raise ShapeMismatch.
Proof.
  intros Hsh Hb Hw Hz Hy Hx Hpast.
  pose proof (place_outcome tr crops b c dz dy dx Hsh Hb) as Hout.
  assert (Hfit : crop_fits c dz dy dx crops = false); [| now rewrite Hfit in Hout].
  destruct crops as [[[az bz] [ay by_]] [ax bx]].
  unfold window_nonneg, span, crop_fits, axis_fits in *. cbn in Hw, Hz, Hy, Hx, Hpast |- *.
  assert (Lz : 155 < bz -> 2 <= bz - az -> slice_len az bz 155 < bz - az).
  { unfold slice_len, slice_hi, slice_lo, clamp.
    destruct (Z.ltb_spec az 0), (Z.ltb_spec bz 0); lia. }
  assert (Ly : 240 < by_ -> 2 <= by_ - ay -> slice_len ay by_ 240 < by_ - ay).
  { unfold slice_len, slice_hi, slice_lo, clamp.
    destruct (Z.ltb_spec ay 0), (Z.ltb_spec by_ 0); lia. }
  assert (Lx : 240 < bx -> 2 <= bx - ax -> slice_len ax bx 240 < bx - ax).
  { unfold slice_len, slice_hi, slice_lo, clamp.
    destruct (Z.ltb_spec ax 0), (Z.ltb_spec bx 0); lia. }
  apply not_true_is_false. intros Hfit.
  rewrite ?andb_true_iff, ?orb_true_iff, ?Z.eqb_eq in Hfit. lia.
Qed.

Lemma place_window_past_frame_witness :
  place (Sample.const_tensor [1; 3; 10; 2; 2] 1) ((150, 160), (20, 22), (30, 32)) =
    Raise ShapeMismatch.
Proof.
  apply (place_window_past_frame (Sample.const_tensor [1; 3; 10; 2; 2] 1)
           ((150, 160), (20, 22), (30, 32)) 1 3 10 2 2);
    [reflexivity | lia | unfold window_nonneg; simpl; lia | reflexivity | reflexivity
    | reflexivity | left; simpl; lia].
Defined.

(** A prediction with a single channel is broadcast: its values are placed
    in each of the three channels of the field. *)
Theorem place_single_channel (tr : tensor) (b dz dy dx : Z) (crops : crop_indexes) :
  shape tr = [b; 1; dz; dy; dx] -> 0 < b ->
  window_in_frame crops ->
  dz = span crops.1.1 -> dy = span crops.1.2 -> dx = span crops.2 ->
  exists f, place tr crops = Ok f /\
    forall c z y x, 0 <= c < 3 ->
      data f [0; c; z; y; x] =
        if inside crops z y x
        then data tr [0; 0; z - crops.1.1.1; y - crops.1.2.1; x - crops.2.1]
        else 0%Q.
Proof.
  intros Hsh Hb Hw Hz Hy Hx.
  destruct crops as [[[az bz] [ay by_]] [ax bx]].
  unfold window_in_frame, span in *. cbn in Hw, Hz, Hy, Hx.
  destruct Hw as ([Hz1 Hz2] & [Hy1 Hy2] & [Hx1 Hx2]).
  unfold place, place_var.
  destruct (getitem_0 tr b _ Hsh Hb) as (src & Hsrc & Hssh & Hsd).
  rewrite Hsrc. cbn -[expandable expand_index]. unfold setitem, crop_subscript.
  cbn -[expandable expand_index].
  rewrite !slice_len_in, !slice_lo_in by lia.
  rewrite Hssh, expandable_crop_fits. unfold axis_fits.
  rewrite <- Hz, <- Hy, <- Hx, !Z.eqb_refl. cbn -[expand_index].
  eexists. split; [reflexivity |].
  intros c z y x Hc. cbn -[expand_index]. unfold inside. cbn -[expand_index].
  replace ((0 <=? c) && (c <? 0 + 3)) with true by lia.
  replace (az + dz) with bz by lia.
  replace (ay + dy) with by_ by lia.
  replace (ax + dx) with bx by lia.
  destruct (Z.leb_spec az z), (Z.ltb_spec z bz); cbn -[expand_index]; try reflexivity;
  destruct (Z.leb_spec ay y), (Z.ltb_spec y by_); cbn -[expand_index]; try reflexivity;
  destruct (Z.leb_spec ax x), (Z.ltb_spec x bx); cbn -[expand_index]; try reflexivity.
  assert (Hidx : expand_index [1; dz; dy; dx] [c - 0; z - az; y - ay; x - ax] =
                 [0; z - az; y - ay; x - ax]).
  { unfold expand_index. cbn -[Z.eqb].
    destruct (Z.eqb_spec dz 1) as [Ez |]; [destruct (Z.eqb_spec dy 1) as [Ey |];
      [destruct (Z.eqb_spec dx 1) as [Ex |] |] |];
      change (1 =? 1) with true; cbn -[Z.eqb];
      rewrite ?bcast_coord by lia; repeat (f_equal; try lia). }
  rewrite Hidx. now rewrite Hsd by reflexivity.
Qed.

Lemma place_single_channel_witness :
  let tr := Sample.const_tensor [1; 1; 2; 2; 2] (9 # 10) in
  let crops : crop_indexes := ((10, 12), (20, 22), (30, 32)) in
  exists f, place tr crops = Ok f /\
    forall c z y x, 0 <= c < 3 ->
      data f [0; c; z; y; x] =
        if inside crops z y x
        then data tr [0; 0; z - crops.1.1.1; y - crops.1.2.1; x - crops.2.1]
        else 0%Q.
Proof.
  intros tr crops.
  apply (place_single_channel tr 1 2 2 2 crops);
    [reflexivity | lia | unfold window_in_frame; simpl; lia | reflexivity | reflexivity
    | reflexivity].
Defined.

End Placement.


(* ===================================================================== *)
(** * Further properties of the aggregation                              *)
(* ===================================================================== *)

Section AggregationFacts.

Lemma ensemble_mean_ok_inv (l : list tensor) (r : tensor) :
  ensemble_mean l = Ok r ->
  l <> [] /\ Forall (fun t => shape t = shape r) l /\
  forall idx, data r idx = mean_at l idx.
Proof.
  destruct l as [| t0 rest]; [discriminate |].
  intros Hr. unfold ensemble_mean, stack in Hr.
  destruct (forallb (fun t : ndarray Q => shape_eqb (shape t) (shape t0)) rest) eqn:Hall;
    [| discriminate].
  assert (Hsh : Forall (fun t => shape t = shape t0) rest).
  { apply Forall_forall. intros t Ht. rewrite forallb_forall in Hall.
    apply list_elem_of_In in Ht. apply Hall in Ht.
    unfold shape_eqb in Ht. now apply bool_decide_eq_true in Ht. }
  destruct (ensemble_mean_is_mean t0 rest Hsh) as (r' & Hr' & Hrsh & Hrd).
  unfold ensemble_mean, stack in Hr'. rewrite Hall in Hr'.
  rewrite Hr in Hr'. injection Hr' as <-.
  split; [discriminate |]. split; [| exact Hrd].
  constructor; [congruence |]. eapply Forall_impl; [exact Hsh |].
  cbn. intros t Ht. congruence.
Qed.







End AggregationFacts.


Section MeanBounds.





Lemma forallb_false_In {A : Type} (f : A -> bool) (l : list A) :
  forallb f l = false -> exists x, In x l /\ f x = false.
Proof.
  induction l as [| a l IH]; cbn; [discriminate |].
  destruct (f a) eqn:Hfa; cbn.
  - intros Hl. destruct (IH Hl) as (x & Hx & Hfx). exists x. auto.
  - intros _. exists a. auto.
Qed.

(** Line 181 raises the shape error exactly when two of the accumulated
    tensors differ in shape. *)
Theorem ensemble_mean_shape_error (l : list tensor) :
  ensemble_mean l = Raise ShapeMismatch <->
  exists t t', In t l /\ In t' l /\ shape t <> shape t'.
Proof.
  split.
  - destruct l as [| t0 rest]; [discriminate |].
    unfold ensemble_mean, stack.
    destruct (forallb (fun t : ndarray Q => shape_eqb (shape t) (shape t0)) rest) eqn:Hall.
    + discriminate.
    + intros _. apply forallb_false_In in Hall.
      destruct Hall as (t & Ht & Hne). exists t, t0.
      split; [now right |]. split; [now left |].
      unfold shape_eqb in Hne. now apply bool_decide_eq_false in Hne.
  - intros (t & t' & Ht & Ht' & Hne).
    destruct (ensemble_mean l) as [r | e] eqn:Hr.
    + apply ensemble_mean_ok_inv in Hr as (_ & Hsh & _).
      rewrite Forall_forall in Hsh. exfalso. apply Hne.
      rewrite (Hsh t), (Hsh t') by now apply list_elem_of_In. reflexivity.
    + destruct l as [| t0 rest]; [destruct Ht |].
      unfold ensemble_mean, stack in Hr.
      destruct (forallb (fun t : ndarray Q => shape_eqb (shape t) (shape t0)) rest);
        cbn in Hr; [discriminate | congruence].
Qed.

End MeanBounds.


(* ===================================================================== *)
(** * Further properties of the label decode                             *)
(* ===================================================================== *)

Section DecodeFacts.

Lemma Qgtb_cases (x c : Q) :
  (Qgtb x c = true /\ (c < x)%Q /\ ~ (x <= c)%Q) \/
  (Qgtb x c = false /\ (x <= c)%Q /\ ~ (c < x)%Q).
Proof.
  unfold Qgtb. destruct (Qle_bool x c) eqn:Hle.
  - right. apply Qle_bool_iff in Hle. split; [reflexivity |].
    split; [exact Hle | now apply Qle_not_lt].
  - left. split; [reflexivity |].
    assert (Hn : ~ (x <= c)%Q).
    { intros H. apply Qle_bool_iff in H. congruence. }
    split; [now apply Qnot_le_lt | exact Hn].
Qed.

(** Lines 184-191, voxel by voxel. *)
Lemma decode_voxel (avg : tensor) (b c : Z) (sp : list Z) :
  shape avg = b :: c :: sp -> 0 < b -> 3 <= c ->
  exists labelmap, decode avg = Ok labelmap /\ shape labelmap = sp /\
    forall idx, length idx = length sp ->
      data labelmap idx =
        decode_voxel_spec (data avg (0 :: 0 :: idx)) (data avg (0 :: 1 :: idx))
                          (data avg (0 :: 2 :: idx)).
Proof.
  intros Hsh Hb Hc. unfold decode.
  destruct (getitem_int avg 0 b _ Hsh) as (avg0 & Havg0 & Hsh0 & Hd0); [lia |].
  rewrite Havg0. cbn -[getitem].
  assert (Hsegs : shape (gt_scalar avg0 (1 # 2)) = c :: sp) by exact Hsh0.
  destruct (getitem_int _ 0 c _ Hsegs) as (et & Het & Hshe & Hde); [lia |].
  destruct (getitem_int _ 1 c _ Hsegs) as (s1 & Hs1 & Hsh1 & Hd1); [lia |].
  destruct (getitem_int _ 2 c _ Hsegs) as (s2 & Hs2 & Hsh2 & Hd2); [lia |].
  rewrite Het. cbn -[getitem]. rewrite Hs1. cbn -[getitem]. rewrite Hs2.
  cbn -[getitem].
  eexists. split; [reflexivity |]. cbn. split; [exact Hshe |].
  intros idx Hlen.
  rewrite (Hde idx Hlen), (Hd1 idx Hlen), (Hd2 idx Hlen). cbn.
  rewrite !Hd0 by (cbn; now rewrite Hlen).
  unfold decode_voxel_spec.
  destruct (Qgtb (data avg (0 :: 0 :: idx)) (1 # 2)),
           (Qgtb (data avg (0 :: 1 :: idx)) (1 # 2)),
           (Qgtb (data avg (0 :: 2 :: idx)) (1 # 2)); reflexivity.
Qed.

(** Every decoded label is 0, 1, 2 or 4, and which one is decided by the
    three channels as follows: 2 when the whole-tumour channel exceeds 0.5
    and the core channel does not, whatever the enhancing channel; 1 when
    the core channel exceeds 0.5 and the enhancing channel does not; 4 when
    the enhancing channel exceeds 0.5 and the voxel is not labelled 2; 0
    when no channel exceeds 0.5. *)
Theorem decode_label_cases (avg : tensor) (b c : Z) (sp : list Z) :
  shape avg = b :: c :: sp -> 0 < b -> 3 <= c ->
  exists labelmap, decode avg = Ok labelmap /\
    forall idx, length idx = length sp ->
      let p0 := data avg (0 :: 0 :: idx) in
      let p1 := data avg (0 :: 1 :: idx) in
      let p2 := data avg (0 :: 2 :: idx) in
      let label := data labelmap idx in
      (label = 0 \/ label = 1 \/ label = 2 \/ label = 4)%Q /\
      (label = 2%Q <-> (1 # 2 < p2 /\ p1 <= 1 # 2)%Q) /\
      (label = 1%Q <-> (1 # 2 < p1 /\ p0 <= 1 # 2)%Q) /\
      (label = 4%Q <-> (1 # 2 < p0 /\ (1 # 2 < p1 \/ p2 <= 1 # 2))%Q) /\
      (label = 0%Q <-> (p0 <= 1 # 2 /\ p1 <= 1 # 2 /\ p2 <= 1 # 2)%Q).
Proof.
  intros Hsh Hb Hc.
  destruct (decode_voxel avg b c sp Hsh Hb Hc) as (lm & Hlm & _ & Hd).
  exists lm. split; [exact Hlm |].
  intros idx Hlen. cbv zeta. rewrite (Hd idx Hlen). unfold decode_voxel_spec.
  destruct (Qgtb_cases (data avg (0 :: 0 :: idx)) (1 # 2)) as [(-> & H0 & N0) | (-> & H0 & N0)],
           (Qgtb_cases (data avg (0 :: 1 :: idx)) (1 # 2)) as [(-> & H1 & N1) | (-> & H1 & N1)],
           (Qgtb_cases (data avg (0 :: 2 :: idx)) (1 # 2)) as [(-> & H2 & N2) | (-> & H2 & N2)];
    cbn; intuition (try discriminate; try reflexivity).
Qed.

Lemma decode_label_cases_witness :
  exists labelmap, decode (Sample.const_tensor canonical_shape (9 # 10)) = Ok labelmap /\
    forall idx, length idx = length [155; 240; 240] ->
      let p0 := data (Sample.const_tensor canonical_shape (9 # 10)) (0 :: 0 :: idx) in
      let p1 := data (Sample.const_tensor canonical_shape (9 # 10)) (0 :: 1 :: idx) in
      let p2 := data (Sample.const_tensor canonical_shape (9 # 10)) (0 :: 2 :: idx) in
      let label := data labelmap idx in
      (label = 0 \/ label = 1 \/ label = 2 \/ label = 4)%Q /\
      (label = 2%Q <-> (1 # 2 < p2 /\ p1 <= 1 # 2)%Q) /\
      (label = 1%Q <-> (1 # 2 < p1 /\ p0 <= 1 # 2)%Q) /\
      (label = 4%Q <-> (1 # 2 < p0 /\ (1 # 2 < p1 \/ p2 <= 1 # 2))%Q) /\
      (label = 0%Q <-> (p0 <= 1 # 2 /\ p1 <= 1 # 2 /\ p2 <= 1 # 2)%Q).
Proof.
  apply (decode_label_cases (Sample.const_tensor canonical_shape (9 # 10)) 1 3
           [155; 240; 240]); [reflexivity | lia | lia].
Defined.

End DecodeFacts.


(* ===================================================================== *)
(** * Further properties of the loops                                    *)
(* ===================================================================== *)

Section LoopFacts.
Context {ext : Externals}.

(** With no member to run, because there is no model or no normalisation
    to pair one with, the first case fails at line 181 on the empty list,
    before any event. *)
Theorem empty_ensemble_fails (bm bz : batch) (bms bzs : list batch)
    (models : list model) (normalisations : list (option string)) (a : args) :
  models = [] \/ normalisations = [] ->
  generate_segmentations (bm :: bms, bz :: bzs) models normalisations a [] =
    (Raise (RuntimeError EmptyTensorList), []).
Proof.
  intros Hempty.
  assert (Hzip : zip models normalisations = []).
  { destruct Hempty as [-> | ->]; [reflexivity | now destruct models]. }
  unfold generate_segmentations. rewrite Hzip. reflexivity.
Qed.

Lemma select_inputs_events (normalisation : option string) (p : prepared) (fr : frame)
    (log : list event) :
  last_norm fr = None ->
  exists fr', select_inputs normalisation p fr log = (Ok fr', log ++ transfer_events normalisation) /\
    last_norm fr' = None.
Proof.
  intros Hn. unfold select_inputs, transfer_events. rewrite Hn.
  destruct (norm_eqb normalisation None) eqn:Hnone.
  { apply bool_decide_eq_true in Hnone. subst normalisation.
    change (norm_eqb None (Some "minmax"%string)) with false.
    change (norm_eqb None (Some "zscore"%string)) with false.
    exists fr. rewrite app_nil_r. split; [reflexivity | exact Hn]. }
  destruct (norm_eqb normalisation (Some "minmax"%string)); [eexists; split; reflexivity |].
  destruct (norm_eqb normalisation (Some "zscore"%string)); [eexists; split; reflexivity |].
  exists fr. rewrite app_nil_r. split; [reflexivity | exact Hn].
Qed.

Lemma predict_events (a : args) (i : nat) (m : model) (fr : frame)
    (model_preds : list tensor) (r : tensor * list tensor) (log log' : list event) :
  predict a i m fr model_preds log = (Ok r, log') -> log' = log ++ [EvForward i].
Proof.
  unfold predict, mbind, M_bind, bind_M, lift, emit. destruct (tta a); cbv zeta.
  - destruct (read_var "inputs" (inputs fr)) as [x |]; [| discriminate].
    destruct (apply_simple_tta m x true) as [t |]; [| discriminate].
    now intros [= _ <-].
  - destruct (read_var "inputs" (inputs fr)) as [x |]; [| discriminate].
    destruct (forward m x) as [o |]; [| discriminate].
    destruct (if deep_supervision m then unpack_pair o else expect_tensor o);
      [| discriminate].
    now intros [= _ <-].
Qed.

Lemma run_model_events (a : args) (p : prepared) (i : nat) (m : model)
    (normalisation : option string) (fr : frame) (model_preds : list tensor)
    (r : frame * list tensor) (log log' : list event) :
  last_norm fr = None ->
  run_model a p i m normalisation fr model_preds log = (Ok r, log') ->
  last_norm r.1 = None /\
  log' = log ++ transfer_events normalisation ++ [EvModelToGpu i; EvForward i; EvModelToCpu i].
Proof.
  intros Hn. unfold run_model, mbind, M_bind, bind_M, lift.
  destruct (select_inputs_events normalisation p fr log Hn) as (fr1 & -> & Hn1).
  cbn [emit].
  destruct (predict a i m fr1 model_preds _) as [[[pre_segs preds1] | e] log2] eqn:Hp;
    [| discriminate].
  apply predict_events in Hp. subst log2.
  destruct (remove_pads_var pre_segs (pads fr1)) as [tr |]; [| discriminate].
  destruct (place_var tr (crops_idx fr1)) as [segs |]; [| discriminate].
  intros [= <- <-]. cbn [fst]. split; [exact Hn1 |].
  now rewrite <- !app_assoc.
Qed.

(** When the loop over the ensemble goes through, its events are exactly,
    for each member in order, the transfer of its input and then its move
    to the accelerator, one forward computation and its move back. *)
Theorem run_models_events (a : args) (p : prepared) (ms : list (model * option string)) :
  forall (i : nat) (fr : frame) (model_preds : list tensor)
         (r : frame * list tensor) (log log' : list event),
    last_norm fr = None ->
    run_models a p i ms fr model_preds log = (Ok r, log') ->
    log' = log ++ ensemble_events i (map snd ms).
Proof.
  induction ms as [| [m normalisation] ms IH]; intros i fr model_preds r log log' Hn;
    cbn [run_models map snd ensemble_events].
  - intros [= _ <-]. now rewrite app_nil_r.
  - unfold mbind, M_bind, bind_M.
    destruct (run_model a p i m normalisation fr model_preds log)
      as [[[fr1 preds1] | e] log1] eqn:Hm; [| discriminate].
    apply (run_model_events _ _ _ _ _ _ _ _ _ _ Hn) in Hm as [Hn1 ->].
    intros Hrest. apply (IH _ _ _ _ _ _ Hn1) in Hrest as ->.
    now rewrite <- !app_assoc.
Qed.

End LoopFacts.

Lemma empty_ensemble_fails_witness :
  generate_segmentations (ext := Sample.externals)
      ([Sample.good_batch "p1"], [Sample.good_batch "p1"])
      [Sample.enhancing_model] [] (Sample.sample_args false) [] =
    (Raise (RuntimeError EmptyTensorList), []).
Proof.
  apply (empty_ensemble_fails (ext := Sample.externals)). right. reflexivity.
Defined.

Lemma run_models_events_witness :
  let c := Sample.good_batch "p1" in
  let ms := [(Sample.enhancing_model, Some "zscore"%string);
             (Sample.necrotic_model, Some "standard"%string)] in
  exists r log',
    run_models (ext := Sample.externals) (Sample.sample_args false)
      (prepare (ext := Sample.externals) c c) 0 ms empty_frame [] [] = (Ok r, log') /\
    log' = [] ++ ensemble_events 0 (map snd ms).
Proof.
  intros c ms.
  assert (Hrun : exists r log',
            run_models (ext := Sample.externals) (Sample.sample_args false)
              (prepare (ext := Sample.externals) c c) 0 ms empty_frame [] [] = (Ok r, log'))
    by (eexists _, _; vm_compute; reflexivity).
  destruct Hrun as (r & log' & Hrun). exists r, log'. split; [exact Hrun |].
  apply (run_models_events (ext := Sample.externals) (Sample.sample_args false)
           (prepare (ext := Sample.externals) c c) ms 0 empty_frame [] r [] log');
    [reflexivity | exact Hrun].
Defined.


Section WrittenVolumes.
Context {ext : Externals}.

Lemma written_snoc (log : list event) (e : event) :
  written (log ++ [e]) =
    written log ++ match e with EvWrite dest _ _ => [dest] | _ => [] end.
Proof. unfold written. rewrite flat_map_app. cbn. now rewrite app_nil_r. Qed.

Ltac wkeep :=
  eapply hoare_bind; [ apply hoare_lift; intros; eassumption | intros ?; cbv beta ].

Ltac wsilent :=
  eapply hoare_bind;
  [ eapply (hoare_emit _ (wrote _)); unfold wrote; intros ? ?;
    rewrite written_snoc; cbn; rewrite app_nil_r; eassumption
  | intros ?; cbv beta ].

Lemma select_inputs_wrote (normalisation : option string) (p : prepared) (fr : frame)
    (w : list string) :
  hoare (wrote w) (select_inputs normalisation p fr) (fun _ => wrote w) (wrote w).
Proof.
  unfold select_inputs.
  destruct (norm_eqb normalisation (last_norm fr)); [apply hoare_ret |].
  destruct (norm_eqb normalisation (Some "minmax"%string)); [wsilent; apply hoare_ret |].
  destruct (norm_eqb normalisation (Some "zscore"%string)); [wsilent; apply hoare_ret |].
  apply hoare_ret.
Qed.

Lemma predict_wrote (a : args) (i : nat) (m : model) (fr : frame)
    (model_preds : list tensor) (w : list string) :
  hoare (wrote w) (predict a i m fr model_preds) (fun _ => wrote w) (wrote w).
Proof.
  unfold predict. destruct (tta a); cbv zeta.
  - wkeep. wsilent. wkeep. apply hoare_ret.
  - wkeep. wsilent. wkeep. wkeep. apply hoare_ret.
Qed.

Lemma run_model_wrote (a : args) (p : prepared) (i : nat) (m : model)
    (normalisation : option string) (fr : frame) (model_preds : list tensor)
    (w : list string) :
  hoare (wrote w) (run_model a p i m normalisation fr model_preds)
        (fun _ => wrote w) (wrote w).
Proof.
  unfold run_model.
  eapply hoare_bind; [apply select_inputs_wrote | intros fr1; cbv beta].
  wsilent.
  eapply hoare_bind; [apply predict_wrote | intros [pre_segs preds]; cbv beta iota].
  wkeep. wkeep. wsilent. apply hoare_ret.
Qed.

Lemma run_models_wrote (a : args) (p : prepared) (ms : list (model * option string))
    (w : list string) :
  forall (i : nat) (fr : frame) (model_preds : list tensor),
    hoare (wrote w) (run_models a p i ms fr model_preds) (fun _ => wrote w) (wrote w).
Proof.
  induction ms as [| [m normalisation] ms IH]; intros i fr model_preds; cbn [run_models].
  - apply hoare_ret.
  - eapply hoare_bind; [apply run_model_wrote | intros [fr1 preds1]]. apply IH.
Qed.

Lemma process_case_wrote (a : args) (ms : list (model * option string))
    (c : batch * batch) (fr : frame) (w : list string) :
  hoare (wrote w) (process_case a ms c fr)
        (fun _ => wrote (w ++ [case_output a c])) (wrote w).
Proof.
  unfold process_case, case_output. destruct c as [batch_minmax batch_zscore]. cbv zeta.
  eapply hoare_bind; [apply run_models_wrote | intros [fr1 preds]; cbv beta iota].
  wkeep. wkeep. wkeep.
  eapply hoare_bind; [| intros ?; apply hoare_ret].
  apply hoare_emit. unfold wrote. intros log Hw. rewrite written_snoc, Hw. reflexivity.
Qed.

Lemma process_cases_wrote (a : args) (ms : list (model * option string))
    (cs : list (batch * batch)) :
  forall (fr : frame) (w : list string),
    hoare (wrote w) (process_cases a ms cs fr)
          (fun _ => wrote (w ++ map (case_output a) cs))
          (fun log => exists k, (k < length cs)%nat /\
                                wrote (w ++ map (case_output a) (take k cs)) log).
Proof.
  induction cs as [| c cs IH]; intros fr w; cbn [process_cases].
  - intros log Hw. cbn. red. now rewrite app_nil_r.
  - intros log Hw. unfold mbind, M_bind, bind_M.
    pose proof (process_case_wrote a ms c fr w log Hw) as Hc.
    destruct (process_case a ms c fr log) as [[fr1 | e] log1].
    + pose proof (IH fr1 _ log1 Hc) as Hrest.
      destruct (process_cases a ms cs fr1 log1) as [[fr2 | e] log2].
      * red in Hrest |- *. rewrite Hrest. cbn [map]. now rewrite <- app_assoc.
      * destruct Hrest as (k & Hk & Hrest). exists (S k).
        split; [cbn [length]; lia |].
        red in Hrest |- *. rewrite Hrest. cbn [take map]. now rewrite <- app_assoc.
    + exists 0%nat. split; [cbn [length]; lia |].
      red in Hc |- *. cbn. now rewrite app_nil_r.
Qed.

(** A run writes one volume per case, in the order of the loaders, at the
    destination named after the patient of the minmax loader; the cases are
    the pairs of the two loaders up to the shorter one.  When the run
    raises, exactly the cases before the failing one have been written. *)
Theorem written_volumes (data_loaders : list batch * list batch) (models : list model)
    (normalisations : list (option string)) (a : args) :
  let cases := zip (fst data_loaders) (snd data_loaders) in
  match generate_segmentations data_loaders models normalisations a [] with
  | (Ok _, log) => written log = map (case_output a) cases
  | (Raise _, log) =>
      exists k, (k < length cases)%nat /\ written log = map (case_output a) (take k cases)
  end.
Proof.
  intros cases. unfold generate_segmentations. fold cases.
  pose proof (process_cases_wrote a (zip models normalisations) cases empty_frame []
                [] eq_refl) as Hrun.
  destruct (process_cases a (zip models normalisations) cases empty_frame [])
    as [[fr | e] log]; exact Hrun.
Qed.

End WrittenVolumes.


Section OutputPaths.

Lemma string_length_append (s1 s2 : string) :
  String.length (s1 ++ s2)%string = (String.length s1 + String.length s2)%nat.
Proof. induction s1 as [| ch s1 IH]; simpl; [reflexivity | now f_equal]. Qed.

Lemma string_append_cancel_r (s1 s2 suffix : string) :
  (s1 ++ suffix = s2 ++ suffix)%string -> s1 = s2.
Proof.
  revert s2. induction s1 as [| ch s1 IH]; intros [| ch2 s2] Heq; simpl in Heq.
  - reflexivity.
  - apply (f_equal String.length) in Heq. simpl in Heq.
    rewrite !string_length_append in Heq. simpl in Heq. lia.
  - apply (f_equal String.length) in Heq. simpl in Heq.
    rewrite !string_length_append in Heq. simpl in Heq. lia.
  - injection Heq as -> Heq. f_equal. now apply IH.
Qed.

Lemma string_append_cancel_l (prefix s1 s2 : string) :
  (prefix ++ s1 = prefix ++ s2)%string -> s1 = s2.
Proof.
  induction prefix as [| ch prefix IH]; simpl; intros Heq; [exact Heq |].
  injection Heq as Heq. now apply IH.
Qed.

Lemma output_path_inj (a : args) (pid1 pid2 : string) :
  output_path a pid1 = output_path a pid2 -> pid1 = pid2.
Proof.
  unfold output_path. intros Heq.
  apply string_append_cancel_l, string_append_cancel_l in Heq.
  now apply string_append_cancel_r in Heq.
Qed.

(** Cases of different patients are written to different destinations:
    when the patient identifiers of the cases are pairwise distinct, so are
    the destinations of their volumes. *)
Theorem case_outputs_distinct (a : args) (cs : list (batch * batch)) :
  NoDup (map (fun c => patient_id c.1) cs) -> NoDup (map (case_output a) cs).
Proof.
  induction cs as [| c cs IH]; cbn [map]; intros Hnd; [constructor |].
  apply NoDup_cons in Hnd as [Hnotin Hnd]. apply NoDup_cons. split; [| now apply IH].
  intros Hin. apply Hnotin.
  apply list_elem_of_fmap in Hin as (c' & Heq & Hc').
  apply list_elem_of_fmap. exists c'. split; [| exact Hc'].
  unfold case_output in Heq. now apply output_path_inj in Heq.
Qed.

Lemma case_outputs_distinct_witness :
  NoDup (map (case_output (Sample.sample_args false))
             [(Sample.good_batch "p1", Sample.good_batch "p1");
              (Sample.odd_batch "p2", Sample.odd_batch "p2")]).
Proof.
  apply (case_outputs_distinct (Sample.sample_args false)).
  simpl. apply NoDup_cons. split.
  - intros Hin. apply list_elem_of_In in Hin. simpl in Hin.
    destruct Hin as [Heq | []]. discriminate Heq.
  - apply NoDup_cons. split; [intros Hin; inversion Hin | constructor].
Defined.

End OutputPaths.


Section ResidencyOnError.
Context {ext : Externals}.

Ltac bkeep :=
  eapply hoare_bind; [ apply hoare_lift; intros; eassumption | intros ?; cbv beta ].

Lemma select_inputs_idle_any (normalisation : option string) (p : prepared) (fr : frame)
    (E : list event -> Prop) :
  hoare idle (select_inputs normalisation p fr) (fun _ => idle) E.
Proof.
  unfold select_inputs.
  destruct (norm_eqb normalisation (last_norm fr)); [apply hoare_ret |].
  destruct (norm_eqb normalisation (Some "minmax"%string)).
  { eapply hoare_bind; [| intros ?; apply hoare_ret].
    apply hoare_emit. intros log Hidle.
    apply idle_emit_neutral; [exact I | reflexivity | exact Hidle]. }
  destruct (norm_eqb normalisation (Some "zscore"%string)).
  { eapply hoare_bind; [| intros ?; apply hoare_ret].
    apply hoare_emit. intros log Hidle.
    apply idle_emit_neutral; [exact I | reflexivity | exact Hidle]. }
  apply hoare_ret.
Qed.

Lemma predict_stays_busy (a : args) (i : nat) (m : model) (fr : frame)
    (model_preds : list tensor) :
  hoare (busy i) (predict a i m fr model_preds) (fun _ => busy i) (busy i).
Proof.
  unfold predict. destruct (tta a); cbv zeta.
  - bkeep.
    eapply hoare_bind; [apply hoare_emit, busy_forward | intros ?; cbv beta].
    bkeep. apply hoare_ret.
  - bkeep.
    eapply hoare_bind; [apply hoare_emit, busy_forward | intros ?; cbv beta].
    bkeep. bkeep. apply hoare_ret.
Qed.

Lemma run_model_leaves_resident (a : args) (p : prepared) (i : nat) (m : model)
    (normalisation : option string) (fr : frame) (model_preds : list tensor) :
  hoare idle (run_model a p i m normalisation fr model_preds) (fun _ => idle) (busy i).
Proof.
  unfold run_model.
  eapply hoare_bind; [apply select_inputs_idle_any | intros fr1; cbv beta].
  eapply hoare_bind; [apply hoare_emit, (idle_load i) | intros ?; cbv beta].
  eapply hoare_bind; [apply predict_stays_busy | intros [pre_segs preds]; cbv beta iota].
  bkeep. bkeep.
  eapply hoare_bind; [apply hoare_emit, busy_unload | intros ?; cbv beta].
  apply hoare_ret.
Qed.

(** There is no unload on the error path: when a pass of the loop over the
    ensemble raises, the member it was running stays on the accelerator,
    alone; when the loop goes through, no model is left there. *)
Theorem failed_pass_leaves_model_resident (a : args) (p : prepared)
    (ms : list (model * option string)) :
  forall (i : nat) (fr : frame) (model_preds : list tensor) (log : list event),
    idle log ->
    match run_models a p i ms fr model_preds log with
    | (Ok _, log') => resident ∅ log' = ∅
    | (Raise _, log') =>
        exists j, (i <= j < i + length ms)%nat /\ resident ∅ log' = {[ j ]}
    end.
Proof.
  induction ms as [| [m normalisation] ms IH]; intros i fr model_preds log Hidle;
    cbn [run_models].
  - apply Hidle.
  - unfold mbind, M_bind, bind_M.
    pose proof (run_model_leaves_resident a p i m normalisation fr model_preds log Hidle)
      as Hpass.
    destruct (run_model a p i m normalisation fr model_preds log)
      as [[[fr1 preds1] | e] log1].
    + specialize (IH (S i) fr1 preds1 log1 Hpass).
      destruct (run_models a p (S i) ms fr1 preds1 log1) as [[r | e] log2];
        [exact IH |].
      destruct IH as (j & Hj & Hres). exists j. split; [cbn [length]; lia | exact Hres].
    + exists i. split; [cbn [length]; lia | apply Hpass].
Qed.

End ResidencyOnError.

Lemma failed_pass_leaves_model_resident_witness :
  let c := Sample.good_batch "p1" in
  match run_models (ext := Sample.externals) (Sample.sample_args false)
          (prepare (ext := Sample.externals) c c) 0
          [(Sample.enhancing_model, Some "minmax"%string);
           (Sample.failing_model, Some "minmax"%string)] empty_frame [] [] with
  | (Ok _, log') => resident ∅ log' = ∅
  | (Raise _, log') => exists j, (0 <= j < 0 + 2)%nat /\ resident ∅ log' = {[ j ]}
  end.
Proof.
  intros c.
  apply (failed_pass_leaves_model_resident (ext := Sample.externals)
           (Sample.sample_args false) (prepare (ext := Sample.externals) c c)
           [(Sample.enhancing_model, Some "minmax"%string);
            (Sample.failing_model, Some "minmax"%string)] 0 empty_frame [] []).
  split; reflexivity.
Defined.


Section AfterTheLoop.
Context {ext : Externals}.

Lemma run_models_has_field (a : args) (p : prepared) (ms : list (model * option string)) :
  forall (i : nat) (fr fr' : frame) (model_preds preds' : list tensor)
         (log log' : list event),
    ms <> [] ->
    run_models a p i ms fr model_preds log = (Ok (fr', preds'), log') ->
    exists segs : tensor, In segs preds' /\ shape segs = canonical_shape.
Proof.
  destruct ms as [| [m normalisation] ms]; [congruence |].
  intros i fr fr' model_preds preds' log log' _. cbn [run_models].
  unfold mbind, M_bind, bind_M.
  destruct (run_model a p i m normalisation fr model_preds log)
    as [[[fr1 preds1] | e] log1] eqn:Hm; [| discriminate].
  intros Hrest. apply run_models_accumulates in Hrest as (new & -> & _).
  apply run_model_appends in Hm as (pre_segs & segs & Hsegs & ->).
  exists segs. split; [| exact Hsegs].
  apply in_or_app. left. destruct (tta a); apply in_or_app; right; cbn; auto.
Qed.

(** Once line 181 has formed the mean of what the loop accumulated, every
    accumulated tensor has the shape of the full volume, with or without
    augmentation, and the decode of lines 184-191 cannot fail: it yields a
    label map of extent 155 x 240 x 240. *)
Theorem mean_then_decode (a : args) (p : prepared) (ms : list (model * option string))
    (i : nat) (fr fr' : frame) (preds : list tensor) (avg : tensor)
    (log log' : list event) :
  run_models a p i ms fr [] log = (Ok (fr', preds), log') ->
  ensemble_mean preds = Ok avg ->
  Forall (fun t => shape t = canonical_shape) preds /\
  shape avg = canonical_shape /\
  exists labelmap, decode avg = Ok labelmap /\ shape labelmap = [155; 240; 240].
Proof.
  intros Hrun Havg.
  pose proof (ensemble_mean_ok_inv preds avg Havg) as (Hne & Hsh & _).
  assert (Hms : ms <> []).
  { intros ->. cbn in Hrun. injection Hrun as _ <- _. congruence. }
  destruct (run_models_has_field a p ms i fr fr' [] preds log log' Hms Hrun)
    as (segs & Hin & Hsegs).
  assert (Hcanon : shape avg = canonical_shape).
  { rewrite Forall_forall in Hsh. rewrite <- (Hsh segs); [exact Hsegs |].
    now apply list_elem_of_In. }
  split; [| split; [exact Hcanon |]].
  - eapply Forall_impl; [exact Hsh |]. cbn. intros t Ht. congruence.
  - destruct (decode_voxel avg 1 3 [155; 240; 240] Hcanon) as (lm & Hlm & Hlsh & _);
      [lia | lia |].
    exists lm. split; assumption.
Qed.

End AfterTheLoop.

Lemma mean_then_decode_witness :
  let c := Sample.good_batch "p1" in
  exists fr' preds avg log',
    run_models (ext := Sample.externals) (Sample.sample_args false)
      (prepare (ext := Sample.externals) c c) 0
      [(Sample.enhancing_model, Some "minmax"%string)] empty_frame [] [] =
      (Ok (fr', preds), log') /\
    ensemble_mean preds = Ok avg /\
    Forall (fun t => shape t = canonical_shape) preds /\
    shape avg = canonical_shape /\
    exists labelmap, decode avg = Ok labelmap /\ shape labelmap = [155; 240; 240].
Proof.
  intros c.
  assert (Hrun : exists fr' preds log',
            run_models (ext := Sample.externals) (Sample.sample_args false)
              (prepare (ext := Sample.externals) c c) 0
              [(Sample.enhancing_model, Some "minmax"%string)] empty_frame [] [] =
              (Ok (fr', preds), log') /\
            exists avg, ensemble_mean preds = Ok avg).
  { eexists _, _, _. split; [vm_compute; reflexivity |]. eexists. reflexivity. }
  destruct Hrun as (fr' & preds & log' & Hrun & avg & Havg).
  exists fr', preds, avg, log'. split; [exact Hrun |]. split; [exact Havg |].
  apply (mean_then_decode (ext := Sample.externals) _ _ _ _ _ _ _ _ _ _ Hrun Havg).
Defined.


Section StaleInputs.
Context {ext : Externals}.

Lemma appends_ret {A : Type} (a : A) : appends (mret a : M A).
Proof. exists (Ok a), []. intros log. now rewrite app_nil_r. Qed.

Lemma appends_lift {A : Type} (r : result A) : appends (lift r).
Proof. exists r, []. intros log. unfold lift. now rewrite app_nil_r. Qed.

Lemma appends_emit (e : event) : appends (emit e).
Proof. exists (Ok tt), [e]. reflexivity. Qed.

Lemma appends_bind {A B : Type} (c : M A) (k : A -> M B) :
  appends c -> (forall a, appends (k a)) -> appends (c ≫= k).
Proof.
  intros (r & d & Hc) Hk. destruct r as [a | e].
  - destruct (Hk a) as (r' & d' & Hka). exists r', (d ++ d'). intros log.
    unfold mbind, M_bind, bind_M. rewrite Hc, Hka. now rewrite app_assoc.
  - exists (Raise e), d. intros log. unfold mbind, M_bind, bind_M. now rewrite Hc.
Qed.

Lemma appends_select_inputs (normalisation : option string) (p : prepared) (fr : frame) :
  appends (select_inputs normalisation p fr).
Proof.
  unfold select_inputs.
  destruct (norm_eqb normalisation (last_norm fr)); [apply appends_ret |].
  destruct (norm_eqb normalisation (Some "minmax"%string)).
  { apply appends_bind; [apply appends_emit | intros ?; apply appends_ret]. }
  destruct (norm_eqb normalisation (Some "zscore"%string)).
  { apply appends_bind; [apply appends_emit | intros ?; apply appends_ret]. }
  apply appends_ret.
Qed.

Lemma appends_predict (a : args) (i : nat) (m : model) (fr : frame)
    (model_preds : list tensor) :
  appends (predict a i m fr model_preds).
Proof.
  unfold predict. destruct (tta a); cbv zeta;
    repeat first [ apply appends_ret | apply appends_lift | apply appends_emit
                 | apply appends_bind; [| intros ?] ].
Qed.

Lemma appends_run_model (a : args) (p : prepared) (i : nat) (m : model)
    (normalisation : option string) (fr : frame) (model_preds : list tensor) :
  appends (run_model a p i m normalisation fr model_preds).
Proof.
  unfold run_model.
  apply appends_bind; [apply appends_select_inputs | intros fr1].
  apply appends_bind; [apply appends_emit | intros ?].
  apply appends_bind; [apply appends_predict | intros [pre_segs preds]].
  repeat first [ apply appends_ret | apply appends_lift | apply appends_emit
               | apply appends_bind; [| intros ?] ].
Qed.

Lemma appends_run_models (a : args) (p : prepared) (ms : list (model * option string)) :
  forall (i : nat) (fr : frame) (model_preds : list tensor),
    appends (run_models a p i ms fr model_preds).
Proof.
  induction ms as [| [m normalisation] ms IH]; intros i fr model_preds; cbn [run_models].
  - apply appends_ret.
  - apply appends_bind; [apply appends_run_model | intros [fr1 preds1]; apply IH].
Qed.

Lemma run_models_cons (a : args) (p : prepared) (i : nat) (m : model)
    (normalisation : option string) (ms : list (model * option string))
    (fr : frame) (model_preds : list tensor) (log : list event) :
  run_models a p i ((m, normalisation) :: ms) fr model_preds log =
    match run_model a p i m normalisation fr model_preds log with
    | (Ok (fr1, preds1), log1) => run_models a p (S i) ms fr1 preds1 log1
    | (Raise e, log1) => (Raise e, log1)
    end.
Proof.
  cbn [run_models]. unfold mbind, M_bind, bind_M.
  now destruct (run_model a p i m normalisation fr model_preds log) as [[[? ?] | ?] ?].
Qed.

Lemma run_model_select_ext (a : args) (p : prepared) (i : nat) (m : model)
    (n1 n2 : option string) (fr1 fr2 : frame) (model_preds : list tensor)
    (log1 log2 : list event) :
  select_inputs n1 p fr1 log1 = select_inputs n2 p fr2 log2 ->
  run_model a p i m n1 fr1 model_preds log1 = run_model a p i m n2 fr2 model_preds log2.
Proof.
  intros Hsel. unfold run_model. unfold mbind, M_bind, bind_M. now rewrite Hsel.
Qed.

Lemma run_model_minmax_frame (a : args) (p : prepared) (i : nat) (m : model)
    (fr fr1 : frame) (model_preds preds1 : list tensor) (log log1 : list event) :
  last_norm fr = None ->
  run_model a p i m (Some "minmax"%string) fr model_preds log = (Ok (fr1, preds1), log1) ->
  fr1 = mk_frame (Some (inputs_minmax p)) (Some (pads_minmax p))
                 (Some (crops_idx_minmax p)) None.
Proof.
  intros Hn. unfold run_model, mbind at 1, M_bind, bind_M.
  rewrite (select_inputs_minmax p fr log Hn).
  unfold mbind, M_bind, bind_M, lift. cbn [emit].
  destruct (predict _ _ _ _ _ _) as [[[pre_segs preds2] | e] log2]; [| discriminate].
  destruct (remove_pads_var _ _) as [tr |]; [| discriminate].
  destruct (place_var _ _) as [segs |]; [| discriminate].
  now intros [= <- _ _].
Qed.

(** A member whose variant is neither minmax nor zscore is not an error
    when it follows a minmax member: it is run on the tensor, pads and crop
    window bound for that member, with the outcome a second minmax member
    would have and the same events except for the transfer. *)
Theorem unknown_variant_reuses_previous (a : args) (p : prepared) (i : nat)
    (m1 m2 : model) (n : option string) (rest : list (model * option string))
    (fr : frame) (model_preds : list tensor) (log : list event) :
  norm_eqb n (Some "minmax"%string) = false ->
  norm_eqb n (Some "zscore"%string) = false ->
  last_norm fr = None ->
  let unknown := run_models a p i ((m1, Some "minmax"%string) :: (m2, n) :: rest)
                   fr model_preds log in
  let minmax := run_models a p i
                  ((m1, Some "minmax"%string) :: (m2, Some "minmax"%string) :: rest)
                  fr model_preds log in
  fst unknown = fst minmax /\
  without_transfers (snd unknown) = without_transfers (snd minmax).
Proof.
  intros Hmm Hzs Hn. cbv zeta.
  rewrite (run_models_cons a p i m1 _ ((m2, n) :: rest)).
  rewrite (run_models_cons a p i m1 _ ((m2, Some "minmax"%string) :: rest)).
  destruct (run_model a p i m1 (Some "minmax"%string) fr model_preds log)
    as [[[fr1 preds1] | e] log1] eqn:H1; [| split; reflexivity].
  apply (run_model_minmax_frame _ _ _ _ _ _ _ _ _ _ Hn) in H1. subst fr1.
  set (bound := mk_frame (Some (inputs_minmax p)) (Some (pads_minmax p))
                         (Some (crops_idx_minmax p)) None).
  rewrite !run_models_cons.
  assert (Hshift : run_model a p (S i) m2 (Some "minmax"%string) bound preds1 log1 =
                   run_model a p (S i) m2 n bound preds1 (log1 ++ [EvInputToGpu "minmax"])).
  { apply run_model_select_ext.
    rewrite (select_inputs_minmax p bound log1 eq_refl).
    rewrite (select_inputs_other n p bound _ Hmm Hzs). reflexivity. }
  rewrite Hshift.
  destruct (appends_run_model a p (S i) m2 n bound preds1) as (r & d & Hpass).
  rewrite !Hpass. destruct r as [[fr2 preds2] | e]; [| split; [reflexivity |]].
  - destruct (appends_run_models a p rest (S (S i)) fr2 preds2) as (r' & d' & Hrest).
    rewrite !Hrest. cbn [fst snd]. split; [reflexivity |].
    unfold without_transfers. rewrite <- !app_assoc, !List.filter_app. reflexivity.
  - cbn [snd]. unfold without_transfers.
    rewrite <- !app_assoc, !List.filter_app. reflexivity.
Qed.

End StaleInputs.

Lemma unknown_variant_reuses_previous_witness :
  let c := Sample.good_batch "p1" in
  let p := prepare (ext := Sample.externals) c c in
  let unknown := run_models (ext := Sample.externals) (Sample.sample_args false) p 0
                   [(Sample.enhancing_model, Some "minmax"%string);
                    (Sample.necrotic_model, Some "standard"%string)] empty_frame [] [] in
  let minmax := run_models (ext := Sample.externals) (Sample.sample_args false) p 0
                  [(Sample.enhancing_model, Some "minmax"%string);
                   (Sample.necrotic_model, Some "minmax"%string)] empty_frame [] [] in
  fst unknown = fst minmax /\
  without_transfers (snd unknown) = without_transfers (snd minmax).
Proof.
  intros c p.
  apply (unknown_variant_reuses_previous (ext := Sample.externals)
           (Sample.sample_args false) p 0 Sample.enhancing_model Sample.necrotic_model
           (Some "standard"%string) [] empty_frame [] []); reflexivity.
Defined.


(* ===================================================================== *)
(** * The driver                                                         *)
(* ===================================================================== *)

Section DriverFacts.
Import Driver.
Context {ext : Externals} {dext : DriverExternals}.

Lemma load_args_inv (cf : config_file) (ns : namespace) :
  load_args cf = Ok ns ->
  exists d, content cf = Some d /\ d !! "ckpt"%string = None /\
    location cf <> [] /\
    ckpt ns = removelast (location cf) ++ ["model_best.pth.tar"%string] /\
    attrs ns !! "normalisation"%string =
      Some (default (YStr "minmax") (d !! "normalisation"%string)) /\
    forall k, k <> "normalisation"%string -> attrs ns !! k = d !! k.
Proof.
  unfold load_args, with_name.
  destruct (location cf) as [| c0 path] eqn:Hloc; [discriminate |].
  cbn -[removelast]. destruct (content cf) as [d |]; [| discriminate].
  case_bool_decide as Hck; [discriminate |].
  intros [= <-]. exists d. split; [reflexivity |].
  split; [now apply eq_None_not_Some |]. split; [discriminate |].
  split; [reflexivity |]. cbn.
  case_bool_decide as Hn.
  - destruct Hn as [v Hv]. rewrite Hv. split; [reflexivity |]. reflexivity.
  - apply eq_None_not_Some in Hn. rewrite Hn. cbn. split.
    + apply lookup_insert_eq.
    + intros k Hk. now apply lookup_insert_ne.
Qed.

(** Lines 57-65 on one file.  When they go through, the file is a mapping
    without a [ckpt] entry; the checkpoint is [model_best.pth.tar] beside
    the file; the normalisation is the file's own, whatever it is, and
    minmax only when the file has no such entry; every other entry is
    passed on unchanged. *)
Theorem load_args_attributes (cf : config_file) (ns : namespace) :
  load_args cf = Ok ns ->
  exists d, content cf = Some d /\ d !! "ckpt"%string = None /\
    ckpt ns = removelast (location cf) ++ ["model_best.pth.tar"%string] /\
    (d !! "normalisation"%string = None ->
     attrs ns !! "normalisation"%string = Some (YStr "minmax")) /\
    (forall v, d !! "normalisation"%string = Some v ->
     attrs ns !! "normalisation"%string = Some v) /\
    forall k, k <> "normalisation"%string -> attrs ns !! k = d !! k.
Proof.
  intros Hload. destruct (load_args_inv cf ns Hload) as (d & Hd & Hck & _ & Hp & Hn & Hk).
  exists d. repeat (split; [assumption |]).
  split; [intros Hnone | split; [intros v Hv | exact Hk]]; rewrite Hn.
  - now rewrite Hnone.
  - now rewrite Hv.
Qed.

(** A file that has an entry [ckpt] of its own, or that is not a mapping,
    is refused with [TypeError]. *)
Theorem load_args_refuses (cf : config_file) :
  location cf <> [] ->
  (content cf = None \/ exists d v, content cf = Some d /\ d !! "ckpt"%string = Some v) ->
  load_args cf = Raise TypeError.
Proof.
  intros Hloc Hbad. unfold load_args, with_name.
  destruct (location cf) as [| c0 path]; [congruence |]. cbn -[removelast].
  destruct Hbad as [-> | (d & v & -> & Hv)]; [reflexivity |].
  case_bool_decide as Hck; [reflexivity |]. exfalso. apply Hck. now exists v.
Qed.

End DriverFacts.

Lemma load_args_attributes_witness :
  exists ns d, Driver.load_args DriverSample.plain_config = Ok ns /\
    Driver.content DriverSample.plain_config = Some d /\ d !! "ckpt"%string = None /\
    Driver.ckpt ns =
      removelast (Driver.location DriverSample.plain_config) ++ ["model_best.pth.tar"%string] /\
    (d !! "normalisation"%string = None ->
     Driver.attrs ns !! "normalisation"%string = Some (Driver.YStr "minmax")) /\
    (forall v, d !! "normalisation"%string = Some v ->
     Driver.attrs ns !! "normalisation"%string = Some v) /\
    forall k, k <> "normalisation"%string -> Driver.attrs ns !! k = d !! k.
Proof.
  assert (Hns : exists ns, Driver.load_args DriverSample.plain_config = Ok ns)
    by (eexists; reflexivity).
  destruct Hns as [ns Hns].
  destruct (load_args_attributes DriverSample.plain_config ns Hns) as (d & Hd).
  exists ns, d. split; [exact Hns | exact Hd].
Defined.

Lemma load_args_refuses_witness :
  Driver.load_args
    (Driver.mk_config_file ["runs"; "config.yaml"]%string
       (Some (<[ "ckpt"%string := Driver.YStr "mine.pth" ]> DriverSample.unet_entries))) =
    Raise TypeError.
Proof.
  apply load_args_refuses; [discriminate |].
  right. eexists _, (Driver.YStr "mine.pth"). split; [reflexivity |]. reflexivity.
Defined.


Section EnsembleFacts.
Import Driver.
Context {ext : Externals} {dext : DriverExternals}.

Lemma load_loop_spec (configs : list config_file) :
  forall (acc args_list : list namespace),
    load_loop configs acc = Ok args_list ->
    exists new, args_list = acc ++ new /\
      Forall2 (fun cf ns => load_args cf = Ok ns) configs new.
Proof.
  induction configs as [| cf configs IH]; intros acc args_list; cbn [load_loop].
  - intros [= <-]. exists []. split; [now rewrite app_nil_r | constructor].
  - destruct (load_args cf) as [ns |] eqn:Hcf; [| discriminate]. cbn.
    intros Hrest. apply IH in Hrest as (new & -> & Hall).
    exists (ns :: new). split; [now rewrite <- app_assoc | now constructor].
Qed.

Lemma build_member_norm (model_args : namespace) (m : model) (y : yaml) :
  build_member model_args = Ok (m, y) ->
  attrs model_args !! "normalisation"%string = Some y.
Proof.
  unfold build_member.
  destruct (attr model_args "arch") as [arch |]; cbn -[attr model_maker]; [| discriminate].
  destruct (model_maker arch) as [maker |]; cbn -[attr]; [| discriminate].
  destruct (attr model_args "width") as [width |]; cbn -[attr]; [| discriminate].
  destruct (attr model_args "deep_sup") as [deep_sup |]; cbn -[attr]; [| discriminate].
  destruct (attr model_args "norm_layer") as [norm_name |]; cbn -[attr]; [| discriminate].
  destruct (get_norm_layer norm_name) as [layer |]; cbn -[attr]; [| discriminate].
  destruct (attr model_args "dropout") as [dropout |]; cbn -[attr]; [| discriminate].
  destruct (maker 4 3 width deep_sup layer dropout) as [m0 |]; cbn -[attr]; [| discriminate].
  destruct (reload_ckpt_bis (ckpt model_args) m0) as [m1 |]; cbn -[attr]; [| discriminate].
  unfold attr. destruct (attrs model_args !! "normalisation"%string); cbn; [| discriminate].
  now intros [= _ <-].
Qed.

Lemma build_loop_spec (args_list : list namespace) :
  forall (ms ms' : list model) (ns ns' : list yaml),
    build_loop args_list ms ns = Ok (ms', ns') ->
    exists built : list (model * yaml),
      ms' = ms ++ map fst built /\ ns' = ns ++ map snd built /\
      Forall2 (fun model_args mn => build_member model_args = Ok mn) args_list built.
Proof.
  induction args_list as [| model_args args_list IH]; intros ms ms' ns ns';
    cbn [build_loop].
  - intros [= <- <-]. exists []. cbn. rewrite !app_nil_r. repeat split. constructor.
  - destruct (build_member model_args) as [[m y] |] eqn:Hm; [| discriminate]. cbn.
    intros Hrest. apply IH in Hrest as (built & -> & -> & Hall).
    exists ((m, y) :: built). cbn. rewrite <- !app_assoc. repeat split.
    now constructor.
Qed.

Lemma ensemble_of_inv (c : cli) (ms : list model) (ns : list (option string)) :
  ensemble_of c = Ok (ms, ns) ->
  exists (args_list : list namespace) (built : list (model * yaml)),
    load_loop (config c) [] = Ok args_list /\
    build_loop args_list [] [] = Ok (ms, map snd built) /\
    ms = map fst built /\ ns = map python_norm (map snd built) /\
    Forall2 (fun cf model_args => load_args cf = Ok model_args) (config c) args_list /\
    Forall2 (fun model_args mn => build_member model_args = Ok mn) args_list built.
Proof.
  unfold ensemble_of.
  destruct (load_loop (config c) []) as [args_list |] eqn:Hload; [| discriminate]. cbn.
  destruct (build_loop args_list [] []) as [[ms0 ns0] |] eqn:Hbuild; [| discriminate].
  cbn. intros [= <- <-].
  apply load_loop_spec in Hload as (new & -> & Hload). cbn in *.
  pose proof Hbuild as Hb. apply build_loop_spec in Hb as (built & -> & -> & Hb).
  cbn in *. exists new, built. repeat split; assumption.
Qed.


End EnsembleFacts.



Section MainFacts.
Import Driver.
Context {ext : Externals} {dext : DriverExternals}.

Lemma main_runs_ensemble (c : cli) (ms : list model) (ns : list (option string))
    (dm dz : list batch) (log : list event) :
  ensemble_of c = Ok (ms, ns) ->
  get_datasets (seed c) (on c) "minmax" = Ok dm ->
  get_datasets (seed c) (on c) "zscore" = Ok dz ->
  main c log =
    generate_segmentations (dm, dz) ms ns
      (mk_args (cli_tta c) (pred_folder_of now (on c) (cli_tta c))) log.
Proof.
  unfold ensemble_of, main. intros Hens Hdm Hdz.
  unfold mbind at 1, M_bind, bind_M, lift.
  destruct (load_loop (config c) []) as [args_list |]; [| discriminate].
  cbn in Hens. cbv zeta. unfold mbind at 1, M_bind, bind_M.
  destruct (build_loop args_list [] []) as [[ms0 ns0] |]; [| discriminate].
  cbn in Hens. injection Hens as <- <-.
  unfold mbind, M_bind, bind_M. now rewrite Hdm, Hdz.
Qed.

Lemma first_case_unbound (bm bz : batch) (bms bzs : list batch) (m : model)
    (ms : list model) (n : option string) (ns : list (option string)) (a : args)
    (log : list event) :
  norm_eqb n (Some "minmax"%string) = false ->
  norm_eqb n (Some "zscore"%string) = false ->
  generate_segmentations (bm :: bms, bz :: bzs) (m :: ms) (n :: ns) a log =
    (Raise (UnboundLocalError "inputs"), log ++ [EvModelToGpu 0]).
Proof.
  intros Hmm Hzs.
  unfold generate_segmentations. cbn [fst snd zip zip_with process_cases].
  unfold process_case, mbind at 1, M_bind, bind_M.
  cbv zeta. cbn [run_models]. unfold run_model.
  unfold mbind, M_bind, bind_M.
  rewrite select_inputs_other by assumption.
  cbn [emit]. rewrite predict_unbound by reflexivity.
  reflexivity.
Qed.

(** [main] does not check the normalisation of a configuration.  When the
    first file gives one that is neither minmax nor zscore (null, say), the
    models are built and the data sets loaded all the same, and the run
    fails on its first case with the unbound-variable error, after the
    first model has been moved to the accelerator. *)
Theorem variant_checked_only_by_first_case (c : cli) (cf : config_file)
    (cfs : list config_file) (d : gmap string yaml) (v : yaml)
    (ms : list model) (ns : list (option string))
    (bm bz : batch) (bms bzs : list batch) :
  config c = cf :: cfs -> content cf = Some d ->
  d !! "normalisation"%string = Some v ->
  norm_eqb (python_norm v) (Some "minmax"%string) = false ->
  norm_eqb (python_norm v) (Some "zscore"%string) = false ->
  ensemble_of c = Ok (ms, ns) ->
  get_datasets (seed c) (on c) "minmax" = Ok (bm :: bms) ->
  get_datasets (seed c) (on c) "zscore" = Ok (bz :: bzs) ->
  main c [] = (Raise (UnboundLocalError "inputs"), [EvModelToGpu 0]).
Proof.
  intros Hc Hd Hv Hmm Hzs Hens Hdm Hdz.
  rewrite (main_runs_ensemble c ms ns _ _ [] Hens Hdm Hdz).
  apply ensemble_of_inv in Hens as (al & built & _ & _ & -> & -> & Hload & Hbuild).
  rewrite Hc in Hload. apply Forall2_cons_inv_l in Hload as (ma & al' & Hcf & _ & ->).
  apply Forall2_cons_inv_l in Hbuild as ([m y] & built' & Hm & _ & ->).
  apply build_member_norm in Hm.
  destruct (load_args_inv cf ma Hcf) as (d' & Hd' & _ & _ & _ & Hn & _).
  assert (d' = d) as -> by congruence.
  rewrite Hv in Hn. cbn in Hn. assert (y = v) as -> by congruence.
  cbn [map fst snd]. now apply first_case_unbound.
Qed.

(** Without a configuration file the ensemble is empty, and with data to
    process the run fails on its first case at line 181, on the empty list
    of predictions. *)
Theorem no_config_fails (c : cli) (bm bz : batch) (bms bzs : list batch) :
  config c = [] ->
  get_datasets (seed c) (on c) "minmax" = Ok (bm :: bms) ->
  get_datasets (seed c) (on c) "zscore" = Ok (bz :: bzs) ->
  main c [] = (Raise (RuntimeError EmptyTensorList), []).
Proof.
  intros Hc Hdm Hdz.
  rewrite (main_runs_ensemble c [] [] _ _ [] ltac:(unfold ensemble_of; now rewrite Hc) Hdm Hdz).
  reflexivity.
Qed.

Lemma has_colon_app (s1 s2 : string) :
  has_colon (s1 ++ s2) = has_colon s1 || has_colon s2.
Proof.
  induction s1 as [| ch s1 IH]; simpl; [reflexivity |].
  now rewrite IH, orb_assoc.
Qed.

Lemma remove_colons_clean (s : string) : has_colon (remove_colons s) = false.
Proof.
  induction s as [| ch s IH]; simpl; [reflexivity |].
  destruct (Ascii.eqb ch _) eqn:Hch; [exact IH |]. simpl. now rewrite Hch.
Qed.

(** Whatever the clock reads and whatever the options, the folder of the
    predictions has no colon in its name; the destination of a case has one
    only if its patient identifier has. *)
Theorem pred_folder_no_colon (clock on : string) (tta : bool) (pid : string) :
  has_colon (pred_folder_of clock on tta) = false /\
  has_colon (output_path (mk_args tta (pred_folder_of clock on tta)) pid) = has_colon pid.
Proof.
  assert (Hfolder : has_colon (pred_folder_of clock on tta) = false).
  { unfold pred_folder_of, save_folder.
    destruct (String.eqb on "test"); [| destruct (String.eqb on "val")];
      rewrite !has_colon_app, remove_colons_clean; now destruct tta. }
  split; [exact Hfolder |].
  unfold output_path. cbn [pred_folder]. rewrite !has_colon_app, Hfolder. cbn.
  now rewrite orb_false_r.
Qed.

End MainFacts.

Lemma variant_checked_only_by_first_case_witness :
  Driver.main (ext := Sample.externals) (dext := DriverSample.externals)
    (DriverSample.sample_cli [DriverSample.null_config; DriverSample.plain_config]) [] =
    (Raise (UnboundLocalError "inputs"), [EvModelToGpu 0]).
Proof.
  assert (Hens : exists ms ns,
            Driver.ensemble_of (dext := DriverSample.externals)
              (DriverSample.sample_cli [DriverSample.null_config; DriverSample.plain_config]) =
              Ok (ms, ns)) by (eexists _, _; vm_compute; reflexivity).
  destruct Hens as (ms & ns & Hens).
  apply (variant_checked_only_by_first_case (ext := Sample.externals)
           (dext := DriverSample.externals) _ DriverSample.null_config
           [DriverSample.plain_config]
           (<[ "normalisation"%string := Driver.YNull ]> DriverSample.unet_entries)
           Driver.YNull ms ns
           (Sample.good_batch "p1") (Sample.good_batch "p1")
           [Sample.odd_batch "p2"] [Sample.odd_batch "p2"]);
    try reflexivity. exact Hens.
Defined.

Lemma no_config_fails_witness :
  Driver.main (ext := Sample.externals) (dext := DriverSample.externals)
    (DriverSample.sample_cli []) [] = (Raise (RuntimeError EmptyTensorList), []).
Proof.
  apply (no_config_fails (ext := Sample.externals) (dext := DriverSample.externals)
           (DriverSample.sample_cli [])
           (Sample.good_batch "p1") (Sample.good_batch "p1")
           [Sample.odd_batch "p2"] [Sample.odd_batch "p2"]); reflexivity.
Defined.


Section SetupFailure.
Import Driver.
Context {ext : Externals} {dext : DriverExternals}.

Lemma build_loop_fails (pre post : list namespace) (model_args : namespace) (e : exn) :
  Forall (fun a => is_ok (build_member a) = true) pre ->
  build_member model_args = Raise e ->
  forall (ms : list model) (ns : list yaml),
    build_loop (pre ++ model_args :: post) ms ns = Raise e.
Proof.
  intros Hpre Hfail. induction Hpre as [| a pre Ha _ IH]; intros ms ns; cbn [app build_loop].
  - now rewrite Hfail.
  - destruct (build_member a) as [[m y] |]; [| discriminate]. cbn. apply IH.
Qed.

(** A member that cannot be built (an architecture that [src.models] does
    not have, a missing entry, a checkpoint that does not load) ends the
    run with its error before any inference: no event is logged, also for
    the members built before it. *)
Theorem member_failure_stops_main (c : cli) (args_list pre post : list namespace)
    (model_args : namespace) (e : exn) (log : list event) :
  load_loop (config c) [] = Ok args_list ->
  args_list = pre ++ model_args :: post ->
  Forall (fun a => is_ok (build_member a) = true) pre ->
  build_member model_args = Raise e ->
  main c log = (Raise e, log).
Proof.
  intros Hload -> Hpre Hfail. unfold main.
  unfold mbind at 1, M_bind, bind_M, lift. rewrite Hload. cbv zeta.
  unfold mbind at 1, M_bind, bind_M.
  now rewrite (build_loop_fails pre post model_args e Hpre Hfail).
Qed.

End SetupFailure.

Lemma member_failure_stops_main_witness :
  let missing := Driver.mk_config_file ["runs"; "c"; "config.yaml"]%string
                   (Some (<[ "arch"%string := Driver.YStr "EquiUnet" ]> DriverSample.unet_entries)) in
  Driver.main (ext := Sample.externals) (dext := DriverSample.externals)
    (DriverSample.sample_cli [DriverSample.plain_config; missing]) [] =
    (Raise AttributeError, []).
Proof.
  intros missing.
  set (built := Driver.mk_namespace
         (<[ "normalisation"%string := Driver.YStr "minmax" ]> DriverSample.unet_entries)
         ["runs"; "a"; "model_best.pth.tar"]%string).
  set (failing := Driver.mk_namespace
         (<[ "normalisation"%string := Driver.YStr "minmax" ]>
            (<[ "arch"%string := Driver.YStr "EquiUnet" ]> DriverSample.unet_entries))
         ["runs"; "c"; "model_best.pth.tar"]%string).
  apply (member_failure_stops_main (ext := Sample.externals)
           (dext := DriverSample.externals)
           (DriverSample.sample_cli [DriverSample.plain_config; missing])
           [built; failing] [built] [] failing AttributeError []).
  - vm_compute. reflexivity.
  - reflexivity.
  - constructor; [vm_compute; reflexivity | constructor].
  - vm_compute. reflexivity.
Defined.
